(** * validate-github-skills: the batched validation pipeline of [js/api.js]

    A shallow embedding of [fetchUserReadme], [checkCompletion],
    [validateUser] and [validateUsers], and the properties of the
    specification that concern them; then of the functions of [js/ui.js]
    that compute on the form and on the results, and of [handleValidation]
    of [js/main.js], which calls them all.

    - A JavaScript string is the list of its UTF-16 code units.
    - The network, the clock and the progress callback are effects: a
      computation takes the state of the outside world and returns its
      outcome (a value or a thrown exception), the new state of the world
      and the events it emitted, in order.
    - The calls of a batch run concurrently; [Promise.all] returns their
      results in the order of the slice whatever the order they settle in.
      The model runs them one after the other in that order.  The network
      is any function of the request and of the world, so whatever each
      request of a concurrent run is answered, some network of the model
      answers the same.
    - The [for] loop of [validateUsers] is recursion on the index [i],
      well-founded because the batch size is positive. *)

From Stdlib Require Import String Ascii DecimalString NArith ZArith Arith Bool Lia List
  Sorted Permutation.
From Equations Require Import Equations.
Import ListNotations.

Set Implicit Arguments.
Set Warnings "-register-all".

(** ** JavaScript strings *)

Definition code_unit := N.
Definition jsstring := list code_unit.

(** The code units of an ASCII literal of the source. *)
Definition js (s : string) : jsstring :=
  map N_of_ascii (list_ascii_of_string s).

Definition jsstring_eqb (a b : jsstring) : bool :=
  if list_eq_dec N.eq_dec a b then true else false.

(** [String(n)] for a non-negative integer. *)
Definition String_of_N (n : N) : jsstring :=
  js (NilEmpty.string_of_uint (N.to_uint n)).

(** *** [String.prototype.trim]

    WhiteSpace and LineTerminator of ECMA-262: TAB, VT, FF, SP, NBSP,
    ZWNBSP, the Unicode space separators, LF, CR, LS and PS.  They all lie
    in the basic plane, so the test is on single code units. *)
Definition is_whitespace (c : code_unit) : bool :=
  existsb (N.eqb c)
    [0x0009; 0x000A; 0x000B; 0x000C; 0x000D; 0x0020; 0x00A0; 0x1680;
     0x2000; 0x2001; 0x2002; 0x2003; 0x2004; 0x2005; 0x2006; 0x2007;
     0x2008; 0x2009; 0x200A; 0x2028; 0x2029; 0x202F; 0x205F; 0x3000;
     0xFEFF]%N.

Fixpoint trimStart (s : jsstring) : jsstring :=
  match s with
  | c :: s' => if is_whitespace c then trimStart s' else s
  | [] => []
  end.

Definition trimEnd (s : jsstring) : jsstring := rev (trimStart (rev s)).

Definition trim (s : jsstring) : jsstring := trimEnd (trimStart s).

(** *** [String.prototype.includes] *)
Fixpoint startsWith (s p : jsstring) : bool :=
  match p, s with
  | [], _ => true
  | _ :: _, [] => false
  | b :: p', a :: s' => N.eqb a b && startsWith s' p'
  end.

Fixpoint includes (s p : jsstring) : bool :=
  startsWith s p ||
  match s with
  | [] => false
  | _ :: s' => includes s' p
  end.

(** ** Exceptions *)

Record exn := Exn { message : jsstring }.

(** *** [encodeURIComponent]

    Unreserved code units stay; everything else is encoded in UTF-8 and
    each byte written as [%XX].  A lone surrogate throws a [URIError]. *)
Definition is_uri_unreserved (c : code_unit) : bool :=
  ((0x41 <=? c) && (c <=? 0x5A) || (0x61 <=? c) && (c <=? 0x7A) ||
   (0x30 <=? c) && (c <=? 0x39) ||
   existsb (N.eqb c) [0x2D; 0x5F; 0x2E; 0x21; 0x7E; 0x2A; 0x27; 0x28; 0x29])%N.

Definition hex_digit (d : N) : code_unit :=
  (if d <? 10 then 0x30 + d else 0x41 + (d - 10))%N.

Definition percent_byte (b : N) : jsstring :=
  [0x25%N; hex_digit (b / 16); hex_digit (b mod 16)].

Definition utf8 (cp : N) : list N :=
  (if cp <? 0x80 then [cp]
   else if cp <? 0x800 then [0xC0 + cp / 64; 0x80 + cp mod 64]
   else if cp <? 0x10000 then
     [0xE0 + cp / 4096; 0x80 + (cp / 64) mod 64; 0x80 + cp mod 64]
   else
     [0xF0 + cp / 262144; 0x80 + (cp / 4096) mod 64;
      0x80 + (cp / 64) mod 64; 0x80 + cp mod 64])%N.

Definition percent_encode (cp : N) : jsstring :=
  flat_map percent_byte (utf8 cp).

Definition is_lead_surrogate (c : code_unit) : bool :=
  ((0xD800 <=? c) && (c <=? 0xDBFF))%N.

Definition is_trail_surrogate (c : code_unit) : bool :=
  ((0xDC00 <=? c) && (c <=? 0xDFFF))%N.

Section Engine.

(** The message of the [URIError] is the engine's. *)
Variable URIError_message : jsstring.

Fixpoint encodeURIComponent (s : jsstring) : exn + jsstring :=
  match s with
  | [] => inr []
  | c :: s' =>
    if is_uri_unreserved c then
      match encodeURIComponent s' with
      | inr r => inr (c :: r)
      | inl e => inl e
      end
    else if is_trail_surrogate c then inl (Exn URIError_message)
    else if is_lead_surrogate c then
      match s' with
      | c2 :: s'' =>
        if is_trail_surrogate c2 then
          match encodeURIComponent s'' with
          | inr r =>
            inr (percent_encode ((c - 0xD800) * 0x400 + (c2 - 0xDC00) + 0x10000)%N ++ r)
          | inl e => inl e
          end
        else inl (Exn URIError_message)
      | [] => inl (Exn URIError_message)
      end
    else
      match encodeURIComponent s' with
      | inr r => inr (percent_encode c ++ r)
      | inl e => inl e
      end
  end.

End Engine.

(** ** JavaScript values

    What [response.json()] can resolve to, and [undefined].  The program
    never inspects a number, so numbers carry no payload. *)
Inductive jsval :=
| VUndefined
| VNull
| VBool (b : bool)
| VNumber
| VStr (s : jsstring)
| VArr (items : list jsval)
| VObj (fields : list (jsstring * jsval)).

(** The value of the last field named [name]; [JSON.parse] keeps the last
    of duplicate keys. *)
Fixpoint lookup_field (name : jsstring) (fields : list (jsstring * jsval))
  : option jsval :=
  match fields with
  | [] => None
  | (k, v) :: rest =>
    match lookup_field name rest with
    | Some v' => Some v'
    | None => if jsstring_eqb k name then Some v else None
    end
  end.

(** ** Requests, responses and results *)

Record request := Request {
  url : jsstring;
  init_headers : option (list (jsstring * jsstring))
}.

(** A [Response] as the program reads it: the [ok] flag, the status and its
    reason phrase, and what [text()] and [json()] settle to. *)
Record response := Response {
  ok : bool;
  status : N;
  statusText : jsstring;
  text : exn + jsstring;
  json : exn + jsval
}.

(** The object [fetchUserReadme] returns: [{success: true, content}] or
    [{success: false, error}]. *)
Inductive FetchOutcome :=
| Success (content : jsval)
| Failure (error : jsstring).

Inductive Status := completed | not_completed | error.

(** The string the program stores in the [status] field. *)
Definition Status_string (s : Status) : jsstring :=
  match s with
  | completed => js "completed"
  | not_completed => js "not-completed"
  | error => js "error"
  end.

(** The object [validateUser] returns.  [status_of] is its field [status]:
    the name [status] is the response's. *)
Record ValidationResult := Result {
  username : jsstring;
  status_of : Status;
  details : jsstring
}.

(** ** Events

    [EFetch] is a call of [fetch], [EProgress] a call of the progress
    callback, [EDelay] a [setTimeout] the loop waits for.  [EBatch] marks
    the start of an iteration of the loop of [validateUsers] and records
    the slice it takes.  Within a batch the events of the concurrent
    [validateUser] calls are listed call after call, in the order of the
    slice. *)
Inductive event :=
| EBatch (batch : list jsstring)
| EFetch (req : request)
| EProgress (current total : nat)
| EDelay (ms : nat).

(** ** Constants of [api.js] *)

Definition COMPLETION_PHRASE : jsstring :=
  js "You've successfully completed this exercise!".
Definition RATE_LIMIT_ERROR : jsstring := js "API rate limit exceeded".
Definition CORS_PROXY : jsstring := js "https://api.allorigins.win/get?url=".

(** [token] is a string or [null]; the empty string and [null] are falsy. *)
Definition truthy (token : option jsstring) : bool :=
  match token with
  | Some (_ :: _) => true
  | _ => false
  end.

Definition ToString (token : option jsstring) : jsstring :=
  match token with
  | Some s => s
  | None => js "null"
  end.

(** [usernames.slice(start, end)] for [start <= end]. *)
Definition slice (A : Type) (start end_ : nat) (l : list A) : list A :=
  firstn (end_ - start) (skipn start l).

Definition batchSize (token : option jsstring) : nat :=
  if truthy token then 10 else 5.

Definition delay (token : option jsstring) : nat :=
  if truthy token then 100 else 500.

(** The URL of the README of the exercise repository of [username]. *)
Definition readme_url (username : jsstring) : jsstring :=
  js "https://raw.githubusercontent.com/" ++ username ++
  js "/skills-getting-started-with-github-copilot/main/README.md".

(** A progress callback receives [(results.length, usernames.length)]; it
    returns or throws, and may change the world. *)
Definition callback (World : Type) : Type :=
  nat -> nat -> World -> (exn + unit) * World.

(** ** The form and the display: [ui.js] and [main.js]

    The functions of [ui.js] that compute on strings and results, as
    functions of the value of the form field they read. *)

(** [text.split(sep)] for a separator of one code unit. *)
Fixpoint split (sep : code_unit) (s : jsstring) : list jsstring :=
  match s with
  | [] => [[]]
  | c :: s' =>
    if (c =? sep)%N then [] :: split sep s'
    else
      match split sep s' with
      | line :: lines => (c :: line) :: lines
      | [] => [[c]]
      end
  end.

(** [array.join(sep)] on an array of strings. *)
Fixpoint join (sep : jsstring) (l : list jsstring) : jsstring :=
  match l with
  | [] => []
  | x :: rest =>
    match rest with
    | [] => x
    | _ :: _ => x ++ sep ++ join sep rest
    end
  end.

(** The line feed, ['\n']. *)
Definition LF : code_unit := 10%N.

(** [getUsernames], on the value of the textarea. *)
Definition getUsernames (value : jsstring) : list jsstring :=
  let text := trim value in
  match text with
  | [] => []
  | _ :: _ =>
    filter (fun line => 0 <? length line) (map trim (split LF text))
  end.

(** [getToken], on the value of the token field: [token || null]. *)
Definition getToken (value : jsstring) : option jsstring :=
  let token := trim value in
  match token with
  | [] => None
  | _ :: _ => Some token
  end.

Definition is_alnum (c : code_unit) : bool :=
  ((0x61 <=? c) && (c <=? 0x7A) || (0x41 <=? c) && (c <=? 0x5A) ||
   (0x30 <=? c) && (c <=? 0x39))%N.

Definition is_alnum_or_hyphen (c : code_unit) : bool :=
  is_alnum c || (c =? 0x2D)%N.

(** [/^[a-zA-Z0-9]([a-zA-Z0-9-]){0,38}$/.test(username)]: the expression has
    no flag, so it reads code units and [$] is the end of the string. *)
Definition username_format_test (u : jsstring) : bool :=
  match u with
  | [] => false
  | c :: rest =>
    is_alnum c && forallb is_alnum_or_hyphen rest && (length rest <=? 38)
  end.

(** The object [validateForm] returns. *)
Module Form.
Record t := Make { isValid : bool; errors : list jsstring }.
End Form.

(** [validateForm], on the value of the textarea. *)
Definition validateForm (value : jsstring) : Form.t :=
  let usernames := getUsernames value in
  let errors :=
    if length usernames =? 0
    then [js "Please enter at least one GitHub username"]
    else [] in
  let invalidUsernames :=
    filter (fun username => negb (username_format_test username)) usernames in
  let errors :=
    if 0 <? length invalidUsernames
    then errors ++
         [js "Invalid username format: " ++ join (js ", ") invalidUsernames]
    else errors in
  Form.Make (length errors =? 0) errors.

(** The object [generateSummary] returns. *)
Module Summary.
Record t := Make { total : nat; completed : nat; notCompleted : nat; errors : nat }.
End Summary.

(** [generateSummary]: the [forEach] with its [switch] on the string in the
    [status] field; a status that is no case label counts nowhere. *)
Definition count_result (summary : Summary.t) (result : ValidationResult)
  : Summary.t :=
  let status := Status_string (status_of result) in
  if jsstring_eqb status (js "completed") then
    Summary.Make (Summary.total summary) (S (Summary.completed summary))
      (Summary.notCompleted summary) (Summary.errors summary)
  else if jsstring_eqb status (js "not-completed") then
    Summary.Make (Summary.total summary) (Summary.completed summary)
      (S (Summary.notCompleted summary)) (Summary.errors summary)
  else if jsstring_eqb status (js "error") then
    Summary.Make (Summary.total summary) (Summary.completed summary)
      (Summary.notCompleted summary) (S (Summary.errors summary))
  else summary.

Definition generateSummary (results : list ValidationResult) : Summary.t :=
  fold_left count_result results (Summary.Make (length results) 0 0 0).

(** [renderResults]: the order of the display.  [order] is the object
    literal of the comparator, read at a status; the comparator is the
    difference of two such numbers, and [NaN], the difference with
    [undefined], sorts as [+0]. *)
Definition order (status : jsstring) : option Z :=
  if jsstring_eqb status (js "completed") then Some 0%Z
  else if jsstring_eqb status (js "not-completed") then Some 1%Z
  else if jsstring_eqb status (js "error") then Some 2%Z
  else None.

Definition compare_results (a b : ValidationResult) : Z :=
  match order (Status_string (status_of a)), order (Status_string (status_of b)) with
  | Some x, Some y => (x - y)%Z
  | _, _ => 0%Z
  end.

(** [Array.prototype.sort] is stable: of two elements the comparator does
    not order, the one that came first stays first.  [insert_before] puts
    [x] in front of the sorted elements that came after it. *)
Fixpoint insert_before (A : Type) (compare : A -> A -> Z) (x : A)
  (sorted : list A) : list A :=
  match sorted with
  | [] => [x]
  | y :: rest =>
    if (compare x y <=? 0)%Z then x :: sorted
    else y :: insert_before compare x rest
  end.

Definition sort (A : Type) (compare : A -> A -> Z) (l : list A) : list A :=
  fold_right (insert_before compare) [] l.

(** The [sortedResults] of [renderResults]. *)
Definition sortedResults (results : list ValidationResult)
  : list ValidationResult :=
  sort compare_results results.

(** The three messages [handleValidation] chooses from for the console. *)
Inductive Message :=
| AllCompleted
| NoneCompleted
| SomeCompleted (completed total : nat).

(** [handleValidation], lines 62 to 71: the count of completed results and
    the message. *)
Definition summary_message (results : list ValidationResult) : Message :=
  let completed :=
    length (filter (fun r => jsstring_eqb (Status_string (status_of r))
                               (js "completed")) results) in
  let total := length results in
  if completed =? total then AllCompleted
  else if completed =? 0 then NoneCompleted
  else SomeCompleted completed total.

(** ** The application: [main.js]

    The functions of [ui.js] that [handleValidation] calls to change the
    page, with their arguments; what they do to the page is the world's. *)
Inductive ui_call :=
| clearResults
| showError (message : jsstring)
| showRateLimitWarning
| showLoading
| hideLoading
| updateProgress (current total : nat)
| renderResults (results : list ValidationResult).

(** The events of a run of [handleValidation]: a call of a function of
    [ui.js], the wait after the warning, a line on the console, and the
    events of the pipeline. *)
Inductive app_event :=
| Call (c : ui_call)
| Wait (ms : nat)
| ConsoleLog (m : Message)
| ConsoleError (e : exn)
| Pipeline (e : event).

(** The outcome and the trace of a run of the application. *)
Definition outcome_of (W A : Type) (o : (exn + A) * W * list app_event)
  : exn + A := fst (fst o).
Definition trace_of (W A : Type) (o : (exn + A) * W * list app_event)
  : list app_event := snd o.

(** The calls of a trace, and its requests. *)
Definition calls (ev : list app_event) : list ui_call :=
  flat_map (fun e => match e with Call c => [c] | _ => [] end) ev.

Definition pipeline_events (ev : list app_event) : list event :=
  flat_map (fun e => match e with Pipeline p => [p] | _ => [] end) ev.

(** ** Vocabulary of the specification *)

(** The three components of the outcome of a computation. *)
Definition result_of (W A : Type) (o : (exn + A) * W * list event) : exn + A :=
  fst (fst o).
Definition world_of (W A : Type) (o : (exn + A) * W * list event) : W :=
  snd (fst o).
Definition events_of (W A : Type) (o : (exn + A) * W * list event)
  : list event := snd o.

(** [p] occurs in [s], verbatim. *)
Definition occurs_in (p s : jsstring) : Prop :=
  exists before after, s = before ++ p ++ after.

(** The request [fetchUserReadme] makes first, and the one it makes through
    the indirection service. *)
Definition direct_request (username : jsstring) (token : option jsstring)
  : request :=
  Request (readme_url username)
    (Some (if truthy token
           then [(js "Authorization", js "token " ++ ToString token)]
           else [])).

Definition proxy_request (encoded : jsstring) : request :=
  Request (CORS_PROXY ++ encoded) None.

Definition to_proxy (req : request) : bool := startsWith (url req) CORS_PROXY.

(** What a trace shows: the slices of the iterations, the calls of the
    progress callback, the requests, and the trace without its requests. *)
Definition batches (ev : list event) : list (list jsstring) :=
  flat_map (fun e => match e with EBatch b => [b] | _ => [] end) ev.

Definition progress_calls (ev : list event) : list (nat * nat) :=
  flat_map (fun e => match e with EProgress c t => [(c, t)] | _ => [] end) ev.

Definition requests (ev : list event) : list request :=
  flat_map (fun e => match e with EFetch r => [r] | _ => [] end) ev.

Definition is_fetch (e : event) : bool :=
  match e with EFetch _ => true | _ => false end.

Definition control (ev : list event) : list event :=
  filter (fun e => negb (is_fetch e)) ev.

(** Partitions [l] into consecutive slices of [size] elements; only the
    last one may be smaller. *)
Fixpoint chunks_upto (A : Type) (fuel size : nat) (l : list A) : list (list A) :=
  match fuel, l with
  | S fuel', _ :: _ => firstn size l :: chunks_upto fuel' size (skipn size l)
  | _, _ => []
  end.

Definition chunks (A : Type) (size : nat) (l : list A) : list (list A) :=
  chunks_upto (length l) size l.

(** The run of the orchestrator over its batches, fetches left out: each
    batch starts, its results are counted, the callback (if supplied) is
    called with the count, and a delay follows unless the batch is the
    last. *)
Fixpoint schedule (token : option jsstring) (supplied : bool)
  (total done : nat) (bs : list (list jsstring)) : list event :=
  match bs with
  | [] => []
  | b :: rest =>
    EBatch b ::
    (if supplied then [EProgress (done + length b) total] else []) ++
    (match rest with [] => [] | _ :: _ => [EDelay (delay token)] end) ++
    schedule token supplied total (done + length b) rest
  end.

(** The number of results accumulated once each batch is done. *)
Fixpoint running_totals (done : nat) (bs : list (list jsstring)) : list nat :=
  match bs with
  | [] => []
  | b :: rest => (done + length b) :: running_totals (done + length b) rest
  end.

(** A string without surrogate code units (every GitHub username is one)
    is encoded without exception. *)
Definition no_surrogate (s : jsstring) : bool :=
  forallb (fun c => negb (is_lead_surrogate c) && negb (is_trail_surrogate c)) s.

(** A callback that returns whenever it is called. *)
Definition returns (W : Type) (progressCallback : option (callback W)) : Prop :=
  match progressCallback with
  | Some cb => forall current total w, fst (cb current total w) = inr tt
  | None => True
  end.

Definition supplied (W : Type) (progressCallback : option (callback W)) : bool :=
  match progressCallback with Some _ => true | None => false end.


(** A string that does not start with white space, and one that holds
    nothing else. *)
Definition starts_clean (s : jsstring) : bool :=
  match s with
  | [] => true
  | c :: _ => negb (is_whitespace c)
  end.

Definition blank (s : jsstring) : bool := forallb is_whitespace s.

(** The delays of a trace, in milliseconds. *)
Definition delays (ev : list event) : list nat :=
  flat_map (fun e => match e with EDelay ms => [ms] | _ => [] end) ev.

(** The results of a list that have a given status, and their number. *)
Definition Status_eqb (a b : Status) : bool :=
  match a, b with
  | completed, completed | not_completed, not_completed | error, error => true
  | _, _ => false
  end.

Definition with_status (s : Status) (results : list ValidationResult)
  : list ValidationResult :=
  filter (fun r => Status_eqb (status_of r) s) results.

Section Pipeline.

(** The state of everything outside the program. *)
Variable World : Type.

(** [fetch]: the promise rejects with an exception or resolves to a
    response; the world moves on. *)
Variable network : request -> World -> (exn + response) * World.

(** Waiting [ms] milliseconds. *)
Variable sleep : nat -> World -> World.

(** Messages of the exceptions the engine itself throws. *)
Variable URIError_message : jsstring.
Variable TypeError_message : jsval -> jsstring -> jsstring.

(** *** The effect monad *)

Definition M (A : Type) : Type := World -> (exn + A) * World * list event.

Definition ret (A : Type) (a : A) : M A := fun w => (inr a, w, []).

Definition throw (A : Type) (e : exn) : M A := fun w => (inl e, w, []).
Arguments throw {A} e.

Definition bind (A B : Type) (m : M A) (k : A -> M B) : M B :=
  fun w =>
    match m w with
    | (inr a, w1, ev1) =>
      match k a w1 with
      | (r, w2, ev2) => (r, w2, ev1 ++ ev2)
      end
    | (inl e, w1, ev1) => (inl e, w1, ev1)
    end.

(** [try { body } catch (error) { handler }] *)
Definition try_catch (A : Type) (body : M A) (handler : exn -> M A) : M A :=
  fun w =>
    match body w with
    | (inr a, w1, ev1) => (inr a, w1, ev1)
    | (inl e, w1, ev1) =>
      match handler e w1 with
      | (r, w2, ev2) => (r, w2, ev1 ++ ev2)
      end
    end.

(** A synchronous step that returns or throws. *)
Definition lift (A : Type) (r : exn + A) : M A := fun w => (r, w, []).

Definition emit (e : event) : M unit := fun w => (inr tt, w, [e]).

Notation "x <- m ;; k" := (bind m (fun x => k))
  (at level 61, m at next level, right associativity).
Notation "m ;;; k" := (bind m (fun _ => k))
  (at level 61, right associativity).

Definition fetch (req : request) : M response :=
  fun w => let (r, w1) := network req w in (r, w1, [EFetch req]).

Definition setTimeout (ms : nat) : M unit :=
  fun w => (inr tt, sleep ms w, [EDelay ms]).

(** [Promise.all]: every promise of the list runs; the result is the list
    of their values in the order of the list, or a rejection. *)
Fixpoint Promise_all (A : Type) (promises : list (M A)) : M (list A) :=
  match promises with
  | [] => ret []
  | p :: rest =>
    fun w =>
      match p w with
      | (r, w1, ev1) =>
        match Promise_all rest w1 with
        | (rs, w2, ev2) =>
          (match r, rs with
           | inr a, inr l => inr (a :: l)
           | inl e, _ => inl e
           | inr _, inl e => inl e
           end, w2, ev1 ++ ev2)
        end
      end
  end.

(** *** Member access and method call on a value *)

(** [data.contents] *)
Definition get_property (data : jsval) (name : jsstring) : exn + jsval :=
  match data with
  | VUndefined | VNull => inl (Exn (TypeError_message data name))
  | VObj fields =>
    match lookup_field name fields with
    | Some v => inr v
    | None => inr VUndefined
    end
  | _ => inr VUndefined
  end.

(** SameValueZero against a string. *)
Definition is_string (s : jsstring) (v : jsval) : bool :=
  match v with
  | VStr s' => jsstring_eqb s' s
  | _ => false
  end.

(** [content.includes(phrase)]: strings and arrays have the method. *)
Definition call_includes (content : jsval) (phrase : jsstring) : exn + bool :=
  match content with
  | VStr s => inr (includes s phrase)
  | VArr items => inr (existsb (is_string phrase) items)
  | _ => inl (Exn (TypeError_message content (js "includes")))
  end.

(** *** [fetchUserReadme]

    The [try] block and the function with its [catch].  The [console.error]
    of the [catch] writes to the console only and is left out. *)

Definition fetchUserReadme_try (username : jsstring) (token : option jsstring)
  : M FetchOutcome :=
  let url := readme_url username in
  let headers :=
    if truthy token
    then [(js "Authorization", js "token " ++ ToString token)]
    else [] in
  response <- fetch (Request url (Some headers)) ;;
  if negb (ok response) then
    if (status response =? 403)%N then throw (Exn RATE_LIMIT_ERROR)
    else if (status response =? 404)%N then
      throw (Exn (js "Repository or README not found"))
    else
      encoded <- lift (encodeURIComponent URIError_message url) ;;
      let proxyUrl := CORS_PROXY ++ encoded in
      response <- fetch (Request proxyUrl None) ;;
      if negb (ok response) then
        throw (Exn (js "HTTP " ++ String_of_N (status response) ++
                    js ": " ++ statusText response))
      else
        data <- lift (json response) ;;
        contents <- lift (get_property data (js "contents")) ;;
        ret (Success contents)
  else
    content <- lift (text response) ;;
    ret (Success (VStr content)).

Definition fetchUserReadme (username : jsstring) (token : option jsstring)
  : M FetchOutcome :=
  try_catch (fetchUserReadme_try username token)
            (fun error => ret (Failure (message error))).

(** *** [checkCompletion] *)

Definition checkCompletion (content : jsval) : exn + bool :=
  call_includes content COMPLETION_PHRASE.

(** *** [validateUser] *)

Definition validateUser_try (trimmedUsername : jsstring)
  (token : option jsstring) : M ValidationResult :=
  result <- fetchUserReadme trimmedUsername token ;;
  match result with
  | Failure error_message => ret (Result trimmedUsername error error_message)
  | Success content =>
    isCompleted <- lift (checkCompletion content) ;;
    ret (Result trimmedUsername
           (if isCompleted then completed else not_completed)
           (if isCompleted
            then js "Exercise completed successfully"
            else js "Completion phrase not found"))
  end.

Definition validateUser (username : jsstring) (token : option jsstring)
  : M ValidationResult :=
  let trimmedUsername := trim username in
  match trimmedUsername with
  | [] => ret (Result trimmedUsername error (js "Invalid username"))
  | _ :: _ =>
    try_catch (validateUser_try trimmedUsername token)
              (fun e => ret (Result trimmedUsername error (message e)))
  end.

(** *** [validateUsers] *)

Definition call_progress (progressCallback : option (callback World))
  (current total : nat) : M unit :=
  match progressCallback with
  | Some cb =>
    fun w => let (r, w1) := cb current total w in (r, w1, [EProgress current total])
  | None => ret tt
  end.

(** One iteration of the loop body, from [results] to the extended
    [results]. *)
Definition validateUsers_body (usernames : list jsstring)
  (token : option jsstring) (progressCallback : option (callback World))
  (i : nat) (results : list ValidationResult) : M (list ValidationResult) :=
  let batch := slice i (i + batchSize token) usernames in
  emit (EBatch batch) ;;;
  batchResults <-
    Promise_all (map (fun username => validateUser username token) batch) ;;
  let results := results ++ batchResults in
  call_progress progressCallback (length results) (length usernames) ;;;
  (if i + batchSize token <? length usernames
   then setTimeout (delay token)
   else ret tt) ;;;
  ret results.

Lemma batchSize_pos (token : option jsstring) : 0 < batchSize token.
Proof. unfold batchSize. destruct (truthy token); lia. Qed.

Equations? validateUsers_loop (usernames : list jsstring)
  (token : option jsstring) (progressCallback : option (callback World))
  (i : nat) (results : list ValidationResult)
  : M (list ValidationResult) by wf (length usernames - i) lt :=
  validateUsers_loop usernames token progressCallback i results
    with lt_dec i (length usernames) => {
    | left _ :=
      results' <- validateUsers_body usernames token progressCallback i results ;;
      validateUsers_loop usernames token progressCallback
                         (i + batchSize token) results'
    | right _ := ret results
  }.
Proof. pose proof (batchSize_pos token). lia. Qed.

Definition validateUsers (usernames : list jsstring)
  (token : option jsstring) (progressCallback : option (callback World))
  : M (list ValidationResult) :=
  validateUsers_loop usernames token progressCallback 0 [].


(** *** [handleValidation]

    The page is part of the world: a function of [ui.js] changes the world
    and returns, or throws; the values of the textarea and of the token
    field are read off the world. *)
Variable ui : ui_call -> World -> (exn + unit) * World.
Variable usernames_value : World -> exn + jsstring.
Variable token_value : World -> exn + jsstring.

Definition App (A : Type) : Type :=
  World -> (exn + A) * World * list app_event.

Definition app_ret (A : Type) (a : A) : App A := fun w => (inr a, w, []).

Definition app_bind (A B : Type) (m : App A) (k : A -> App B) : App B :=
  fun w =>
    match m w with
    | (inr a, w1, ev1) =>
      match k a w1 with
      | (r, w2, ev2) => (r, w2, ev1 ++ ev2)
      end
    | (inl e, w1, ev1) => (inl e, w1, ev1)
    end.

Definition app_try_catch (A : Type) (body : App A) (handler : exn -> App A)
  : App A :=
  fun w =>
    match body w with
    | (inr a, w1, ev1) => (inr a, w1, ev1)
    | (inl e, w1, ev1) =>
      match handler e w1 with
      | (r, w2, ev2) => (r, w2, ev1 ++ ev2)
      end
    end.

(** [try { body } finally { cleanup }]: the cleanup always runs; when it
    throws, its exception is the outcome. *)
Definition app_try_finally (A : Type) (body : App A) (cleanup : App unit)
  : App A :=
  fun w =>
    match body w with
    | (r, w1, ev1) =>
      match cleanup w1 with
      | (inr _, w2, ev2) => (r, w2, ev1 ++ ev2)
      | (inl e, w2, ev2) => (inl e, w2, ev1 ++ ev2)
      end
    end.

Notation "x <~ m ;; k" := (app_bind m (fun x => k))
  (at level 61, m at next level, right associativity).
Notation "m ;;~ k" := (app_bind m (fun _ => k))
  (at level 61, right associativity).

(** A call of a function of [ui.js]. *)
Definition call (c : ui_call) : App unit :=
  fun w => let (r, w1) := ui c w in (r, w1, [Call c]).

(** Reading a field of the form. *)
Definition read (field : World -> exn + jsstring) : App jsstring :=
  fun w => (field w, w, []).

Definition wait (ms : nat) : App unit :=
  fun w => (inr tt, sleep ms w, [Wait ms]).

Definition console (e : app_event) : App unit := fun w => (inr tt, w, [e]).

(** A computation of the pipeline, inside the application. *)
Definition pipeline (A : Type) (m : M A) : App A :=
  fun w => match m w with (r, w1, ev) => (r, w1, map Pipeline ev) end.

(** [validateForm()], [getUsernames()] and [getToken()] on the page. *)
Definition validateForm_page : App Form.t :=
  value <~ read usernames_value ;; app_ret (validateForm value).

Definition getUsernames_page : App (list jsstring) :=
  value <~ read usernames_value ;; app_ret (getUsernames value).

Definition getToken_page : App (option jsstring) :=
  value <~ read token_value ;; app_ret (getToken value).

Definition handleValidation : App unit :=
  call clearResults ;;~
  validation <~ validateForm_page ;;
  if negb (Form.isValid validation) then
    call (showError (join (js ". ") (Form.errors validation)))
  else
    usernames <~ getUsernames_page ;;
    token <~ getToken_page ;;
    (if negb (truthy token) && (10 <? length usernames)
     then call showRateLimitWarning ;;~ wait 2000
     else app_ret tt) ;;~
    call showLoading ;;~
    app_try_finally
      (app_try_catch
         (results <~
            pipeline
              (validateUsers usernames token
                 (Some (fun current total => ui (updateProgress current total)))) ;;
          call (renderResults results) ;;~
          console (ConsoleLog (summary_message results)))
         (fun error =>
            console (ConsoleError error) ;;~
            call (showError (js "An error occurred during validation: " ++
                             message error))))
      (call hideLoading).

(** *** Definitions for the statements *)

(** What the fallback of [fetchUserReadme] does once the target URL is
    encoded. *)
Definition fallback (encoded : jsstring) (w1 : World) (before : list event)
  : (exn + FetchOutcome) * World * list event :=
  let trace := before ++ [EFetch (proxy_request encoded)] in
  match network (proxy_request encoded) w1 with
  | (inl e, w2) => (inr (Failure (message e)), w2, trace)
  | (inr response2, w2) =>
    if ok response2 then
      match json response2 with
      | inl e => (inr (Failure (message e)), w2, trace)
      | inr data =>
        match get_property data (js "contents") with
        | inl e => (inr (Failure (message e)), w2, trace)
        | inr contents => (inr (Success contents), w2, trace)
        end
      end
    else
      (inr (Failure (js "HTTP " ++ String_of_N (status response2) ++
                     js ": " ++ statusText response2)), w2, trace)
  end.

(** The content check of [validateUser] on a fetched [content], with the
    [catch] around it. *)
Definition content_check (trimmedUsername : jsstring) (content : jsval)
  : exn + ValidationResult :=
  match checkCompletion content with
  | inr isCompleted =>
    inr (Result trimmedUsername
           (if isCompleted then completed else not_completed)
           (if isCompleted
            then js "Exercise completed successfully"
            else js "Completion phrase not found"))
  | inl e => inr (Result trimmedUsername error (message e))
  end.

(** The direct response asks for the fallback: it is no success, and its
    status is neither 403 nor 404. *)
Definition fallback_needed (r : response) : Prop :=
  ok r = false /\ status r <> 403%N /\ status r <> 404%N.

(** [raised u token w e]: in the run of the Fetcher on the trimmed username
    [u] from the world [w], the exception [e] is raised by the direct fetch,
    by reading its body, by the fallback fetch (encoding its URL, the request,
    parsing the envelope, reading [contents]), by the content check, or by
    one of the three [throw] statements of [fetchUserReadme]. *)
Inductive raised (u : jsstring) (token : option jsstring) (w : World) (e : exn)
  : Prop :=
| raised_direct_fetch w1 :
    network (direct_request u token) w = (inl e, w1) -> raised u token w e
| raised_direct_body r w1 :
    network (direct_request u token) w = (inr r, w1) ->
    ok r = true -> text r = inl e -> raised u token w e
| raised_fallback_url r w1 :
    network (direct_request u token) w = (inr r, w1) -> fallback_needed r ->
    encodeURIComponent URIError_message (readme_url u) = inl e ->
    raised u token w e
| raised_fallback_fetch r w1 encoded w2 :
    network (direct_request u token) w = (inr r, w1) -> fallback_needed r ->
    encodeURIComponent URIError_message (readme_url u) = inr encoded ->
    network (proxy_request encoded) w1 = (inl e, w2) -> raised u token w e
| raised_fallback_json r w1 encoded r2 w2 :
    network (direct_request u token) w = (inr r, w1) -> fallback_needed r ->
    encodeURIComponent URIError_message (readme_url u) = inr encoded ->
    network (proxy_request encoded) w1 = (inr r2, w2) ->
    ok r2 = true -> json r2 = inl e -> raised u token w e
| raised_fallback_contents r w1 encoded r2 w2 data :
    network (direct_request u token) w = (inr r, w1) -> fallback_needed r ->
    encodeURIComponent URIError_message (readme_url u) = inr encoded ->
    network (proxy_request encoded) w1 = (inr r2, w2) ->
    ok r2 = true -> json r2 = inr data ->
    get_property data (js "contents") = inl e -> raised u token w e
| raised_content_check content w1 ev :
    fetchUserReadme u token w = (inr (Success content), w1, ev) ->
    checkCompletion content = inl e -> raised u token w e
| raised_rate_limit r w1 :
    network (direct_request u token) w = (inr r, w1) ->
    ok r = false -> status r = 403%N ->
    e = Exn RATE_LIMIT_ERROR -> raised u token w e
| raised_not_found r w1 :
    network (direct_request u token) w = (inr r, w1) ->
    ok r = false -> status r = 404%N ->
    e = Exn (js "Repository or README not found") -> raised u token w e
| raised_fallback_status r w1 encoded r2 w2 :
    network (direct_request u token) w = (inr r, w1) -> fallback_needed r ->
    encodeURIComponent URIError_message (readme_url u) = inr encoded ->
    network (proxy_request encoded) w1 = (inr r2, w2) ->
    ok r2 = false ->
    e = Exn (js "HTTP " ++ String_of_N (status r2) ++ js ": " ++ statusText r2) ->
    raised u token w e.

(** ASCII case folding of a code unit, and strings that differ only in the
    case of their letters. *)
Definition fold_case (c : code_unit) : code_unit :=
  (if (0x41 <=? c) && (c <=? 0x5A) then c + 32 else c)%N.

Definition differs_only_in_case (a b : jsstring) : Prop :=
  a <> b /\ map fold_case a = map fold_case b.

(** The network answers a request the same way in every world. *)
Definition deterministic_provider : Prop :=
  forall req w1 w2, fst (network req w1) = fst (network req w2).

(** ** String lemmas *)

Lemma startsWith_iff (s p : jsstring) :
  startsWith s p = true <-> exists after, s = p ++ after.
Proof.
  revert s. induction p as [|b p IH]; intros s; simpl.
  - split; [intros _; exists s; reflexivity | intros _; destruct s; reflexivity].
  - destruct s as [|a s]; simpl.
    + split; [discriminate | intros [x Hx]; discriminate].
    + rewrite andb_true_iff, N.eqb_eq, IH. split.
      * intros [-> [x ->]]. exists x. reflexivity.
      * intros [x Hx]. injection Hx as -> ->. split; [reflexivity | eauto].
Qed.

Lemma includes_iff (s p : jsstring) :
  includes s p = true <-> occurs_in p s.
Proof.
  unfold occurs_in. induction s as [|a s IH].
  - cbn [includes]. rewrite orb_false_r, startsWith_iff. split.
    + intros [x Hx]. exists [], x. exact Hx.
    + intros (pre & post & H). symmetry in H.
      apply app_eq_nil in H as [-> H]. exists post. symmetry. exact H.
  - cbn [includes]. rewrite orb_true_iff, startsWith_iff, IH. split.
    + intros [[x Hx] | (pre & post & H)].
      * exists [], x. exact Hx.
      * exists (a :: pre), post. rewrite H. reflexivity.
    + intros (pre & post & H). destruct pre as [|c pre].
      * left. exists post. exact H.
      * right. injection H as _ H. exists pre, post. exact H.
Qed.

Lemma occurs_in_same_length (p s : jsstring) :
  length s = length p -> occurs_in p s -> s = p.
Proof.
  intros Hlen (pre & post & ->). rewrite !length_app in Hlen.
  destruct pre; [|simpl in Hlen; lia].
  destruct post; [|simpl in Hlen; lia].
  simpl. apply app_nil_r.
Qed.

Arguments js : simpl never.
Arguments readme_url : simpl never.
Arguments String_of_N : simpl never.

Lemma encodeURIComponent_no_surrogate (msg : jsstring) (s : jsstring) :
  no_surrogate s = true -> exists encoded, encodeURIComponent msg s = inr encoded.
Proof.
  induction s as [|c s IH]; [eexists; reflexivity |].
  cbn [no_surrogate forallb]. rewrite !andb_true_iff, !negb_true_iff.
  intros [[Hlead Htrail] Hs]. destruct (IH Hs) as [r Hr].
  cbn [encodeURIComponent]. rewrite Hr, Hlead, Htrail.
  destruct (is_uri_unreserved c); eexists; reflexivity.
Qed.

Lemma readme_url_encodes (msg : jsstring) (u : jsstring) :
  no_surrogate u = true ->
  exists encoded, encodeURIComponent msg (readme_url u) = inr encoded.
Proof.
  intros Hu. apply encodeURIComponent_no_surrogate.
  unfold readme_url, no_surrogate. rewrite !forallb_app.
  fold (no_surrogate u). rewrite Hu. reflexivity.
Qed.

(** ** Slices *)

Section Chunks.

Context {A : Type}.
Variable size : nat.
Hypothesis size_pos : 0 < size.

(** Induction along the loop: from a list to what is left once a slice is
    taken. *)
Lemma slice_induction (P : list A -> Prop) :
  P [] ->
  (forall l, l <> [] -> P (skipn size l) -> P l) ->
  forall l, P l.
Proof.
  intros Hnil Hstep l.
  remember (length l) as n eqn:Hn. revert l Hn.
  induction n as [n IH] using lt_wf_ind. intros l Hn.
  destruct l as [|a l]; [exact Hnil |].
  apply Hstep; [discriminate |].
  apply (IH (length (skipn size (a :: l)))); [| reflexivity].
  rewrite length_skipn. subst n. cbn [length]. lia.
Qed.

Lemma chunks_upto_fuel (fuel fuel' : nat) (l : list A) :
  length l <= fuel -> length l <= fuel' ->
  chunks_upto fuel size l = chunks_upto fuel' size l.
Proof.
  revert fuel' l. induction fuel as [|fuel IH]; intros fuel' l H H'.
  - destruct l; [| cbn in H; lia]. destruct fuel'; reflexivity.
  - destruct l as [|a l]; [destruct fuel'; reflexivity |].
    destruct fuel' as [|fuel']; [cbn in H'; lia |].
    cbn [chunks_upto]. f_equal.
    assert (length (skipn size (a :: l)) < length (a :: l))
      by (rewrite length_skipn; cbn [length]; lia).
    cbn [length] in *. apply IH; lia.
Qed.

Lemma chunks_nil : chunks size (@nil A) = [].
Proof. reflexivity. Qed.

Lemma chunks_cons (l : list A) :
  l <> [] -> chunks size l = firstn size l :: chunks size (skipn size l).
Proof.
  intros Hl. destruct l as [|a l]; [congruence |].
  unfold chunks. cbn [length chunks_upto]. f_equal.
  apply chunks_upto_fuel; [| lia].
  rewrite length_skipn. cbn [length]. lia.
Qed.

Lemma chunks_eq_nil (l : list A) : chunks size l = [] <-> l = [].
Proof.
  split; [| intros ->; reflexivity].
  destruct l as [|a l]; [reflexivity |].
  rewrite chunks_cons by discriminate. discriminate.
Qed.

Lemma concat_chunks (l : list A) : concat (chunks size l) = l.
Proof.
  induction l as [| l Hl IH] using slice_induction; [reflexivity |].
  rewrite chunks_cons by exact Hl. cbn [concat]. rewrite IH.
  apply firstn_skipn.
Qed.

Lemma chunks_bounds (l : list A) :
  Forall (fun b => 1 <= length b <= size) (chunks size l).
Proof.
  induction l as [| l Hl IH] using slice_induction; [constructor |].
  rewrite chunks_cons by exact Hl. constructor; [| exact IH].
  rewrite length_firstn. destruct l; [congruence | cbn [length]; lia].
Qed.

(** Every slice but the last is full. *)
Lemma chunks_full (l : list A) (k : nat) (b : list A) :
  nth_error (chunks size l) k = Some b ->
  S k < length (chunks size l) ->
  length b = size.
Proof.
  revert k. induction l as [| l Hl IH] using slice_induction; intros k.
  - destruct k; discriminate.
  - rewrite chunks_cons by exact Hl. destruct k as [|k]; cbn.
    + intros [= <-] Hk. rewrite length_firstn.
      destruct (chunks size (skipn size l)) eqn:Hrest; [cbn in Hk; lia |].
      assert (skipn size l <> []) as Hne
        by (intros E; rewrite E in Hrest; discriminate).
      assert (length (skipn size l) <> 0)
        by (destruct (skipn size l); [congruence | discriminate]).
      rewrite length_skipn in *. lia.
    + intros Hb Hk. apply (IH k); [exact Hb | lia].
Qed.

(** The k-th slice starts at index [k * size]. *)
Lemma chunks_nth (l : list A) (k : nat) (b : list A) :
  nth_error (chunks size l) k = Some b ->
  b = firstn size (skipn (k * size) l) /\ k * size < length l.
Proof.
  revert k. induction l as [| l Hl IH] using slice_induction; intros k.
  - destruct k; discriminate.
  - rewrite chunks_cons by exact Hl. destruct k as [|k]; cbn [nth_error].
    + intros [= <-]. split; [reflexivity |].
      destruct l; [congruence | cbn; lia].
    + intros Hb. destruct (IH k Hb) as [-> Hk].
      rewrite skipn_skipn, length_skipn in *.
      split; [f_equal; f_equal; lia | lia].
Qed.

End Chunks.

(** ** Traces *)

Lemma batches_app (a b : list event) : batches (a ++ b) = batches a ++ batches b.
Proof. apply flat_map_app. Qed.

Lemma progress_calls_app (a b : list event) :
  progress_calls (a ++ b) = progress_calls a ++ progress_calls b.
Proof. apply flat_map_app. Qed.

Lemma control_app (a b : list event) : control (a ++ b) = control a ++ control b.
Proof. apply filter_app. Qed.

Lemma batches_control (ev : list event) : batches (control ev) = batches ev.
Proof.
  unfold batches, control.
  induction ev as [|e ev IH]; [reflexivity |].
  destruct e; cbn; rewrite ?IH; reflexivity.
Qed.

Lemma progress_calls_control (ev : list event) :
  progress_calls (control ev) = progress_calls ev.
Proof.
  unfold progress_calls, control.
  induction ev as [|e ev IH]; [reflexivity |].
  destruct e; cbn; rewrite ?IH; reflexivity.
Qed.

Lemma control_only_fetches (ev : list event) :
  Forall (fun e => is_fetch e = true) ev -> control ev = [].
Proof.
  induction 1 as [|e ev He _ IH]; [reflexivity |].
  cbn. rewrite He. exact IH.
Qed.

Lemma batches_only_fetches (ev : list event) :
  Forall (fun e => is_fetch e = true) ev -> batches ev = [].
Proof.
  intros H. rewrite <- batches_control, (control_only_fetches H). reflexivity.
Qed.

Lemma batches_schedule (token : option jsstring) (sup : bool)
  (total done : nat) (bs : list (list jsstring)) :
  batches (schedule token sup total done bs) = bs.
Proof.
  revert done. induction bs as [|b rest IH]; intros done; [reflexivity |].
  cbn [schedule]. change (EBatch b :: ?l) with ([EBatch b] ++ l).
  rewrite !batches_app, IH.
  destruct sup, rest; reflexivity.
Qed.

Lemma progress_calls_schedule (token : option jsstring)
  (total done : nat) (bs : list (list jsstring)) :
  progress_calls (schedule token true total done bs) =
  map (fun c => (c, total)) (running_totals done bs).
Proof.
  revert done. induction bs as [|b rest IH]; intros done; [reflexivity |].
  cbn [schedule running_totals map].
  change (EBatch b :: ?l) with ([EBatch b] ++ l).
  rewrite !progress_calls_app, IH. destruct rest; reflexivity.
Qed.

Lemma progress_calls_schedule_none (token : option jsstring)
  (total done : nat) (bs : list (list jsstring)) :
  progress_calls (schedule token false total done bs) = [].
Proof.
  revert done. induction bs as [|b rest IH]; intros done; [reflexivity |].
  cbn [schedule]. change (EBatch b :: ?l) with ([EBatch b] ++ l).
  rewrite !progress_calls_app, IH. destruct rest; reflexivity.
Qed.

Lemma running_totals_length (done : nat) (bs : list (list jsstring)) :
  length (running_totals done bs) = length bs.
Proof.
  revert done. induction bs as [|b rest IH]; intros done; cbn;
    [reflexivity | rewrite IH; reflexivity].
Qed.

Lemma running_totals_above (done : nat) (bs : list (list jsstring)) :
  Forall (fun b => 1 <= length b) bs ->
  Forall (fun c => done < c) (running_totals done bs).
Proof.
  intros H. revert done. induction H as [|b rest Hb _ IH]; intros done;
    cbn [running_totals]; constructor; [lia |].
  eapply Forall_impl; [| apply IH]. cbn. intros c Hc. lia.
Qed.

Lemma running_totals_increasing (done : nat) (bs : list (list jsstring)) :
  Forall (fun b => 1 <= length b) bs ->
  StronglySorted lt (running_totals done bs).
Proof.
  intros H. revert done. induction H as [|b rest Hb Hrest IH]; intros done;
    cbn [running_totals]; constructor.
  - apply IH.
  - apply running_totals_above. exact Hrest.
Qed.

Lemma running_totals_last (done : nat) (bs : list (list jsstring)) :
  bs <> [] ->
  last (running_totals done bs) 0 = done + length (concat bs).
Proof.
  revert done. induction bs as [|b rest IH]; intros done Hne; [congruence |].
  cbn [running_totals concat]. rewrite length_app.
  destruct rest as [|b' rest'].
  - cbn. lia.
  - change (last (?x :: running_totals ?d (b' :: rest')) 0)
      with (last (running_totals d (b' :: rest')) 0).
    rewrite IH by discriminate. lia.
Qed.

(** ** Trimming and splitting *)

Lemma trimStart_starts_clean (s : jsstring) : starts_clean (trimStart s) = true.
Proof.
  induction s as [|c s IH]; [reflexivity |].
  cbn [trimStart]. destruct (is_whitespace c) eqn:Hc; [exact IH |].
  cbn [starts_clean]. rewrite Hc. reflexivity.
Qed.

Lemma trimStart_fixed (s : jsstring) : starts_clean s = true -> trimStart s = s.
Proof.
  destruct s as [|c s]; [reflexivity |].
  cbn [starts_clean trimStart]. intros H. apply negb_true_iff in H.
  rewrite H. reflexivity.
Qed.

Lemma trimStart_nil_iff (s : jsstring) : trimStart s = [] <-> blank s = true.
Proof.
  unfold blank. induction s as [|c s IH]; [split; reflexivity |].
  cbn [trimStart forallb]. destruct (is_whitespace c); cbn [andb].
  - exact IH.
  - split; discriminate.
Qed.

(** What [trimStart] removes is white space. *)
Lemma trimStart_split (s : jsstring) :
  exists ws, s = ws ++ trimStart s /\ blank ws = true.
Proof.
  induction s as [|c s (ws & Hs & Hws)]; [exists []; split; reflexivity |].
  cbn [trimStart]. destruct (is_whitespace c) eqn:Hc.
  - exists (c :: ws). split; [cbn [app]; rewrite <- Hs; reflexivity |].
    unfold blank in *. cbn [forallb]. rewrite Hc. exact Hws.
  - exists []. split; reflexivity.
Qed.

Lemma trimStart_keeps_last (l : jsstring) (c : code_unit) :
  is_whitespace c = false -> exists x, trimStart (l ++ [c]) = x ++ [c].
Proof.
  intros Hc. induction l as [|a l (x & Hx)].
  - exists []. cbn [app trimStart]. rewrite Hc. reflexivity.
  - cbn [app trimStart]. destruct (is_whitespace a).
    + exists x. exact Hx.
    + exists (a :: l). reflexivity.
Qed.

Lemma trimEnd_keeps_first (c : code_unit) (r : jsstring) :
  is_whitespace c = false -> exists x, trimEnd (c :: r) = c :: x.
Proof.
  intros Hc. unfold trimEnd. cbn [rev].
  destruct (trimStart_keeps_last (rev r) c Hc) as (x & Hx).
  rewrite Hx, rev_app_distr. exists (rev x). reflexivity.
Qed.

Lemma trimEnd_starts_clean (s : jsstring) :
  starts_clean s = true -> starts_clean (trimEnd s) = true.
Proof.
  destruct s as [|c r]; [reflexivity |].
  cbn [starts_clean]. intros H. apply negb_true_iff in H.
  destruct (trimEnd_keeps_first c r H) as (x & ->).
  cbn [starts_clean]. rewrite H. reflexivity.
Qed.

Lemma trimEnd_idempotent (s : jsstring) : trimEnd (trimEnd s) = trimEnd s.
Proof.
  unfold trimEnd. rewrite rev_involutive.
  rewrite (trimStart_fixed _ (trimStart_starts_clean (rev s))). reflexivity.
Qed.

Lemma trimEnd_split (s : jsstring) :
  exists ws, s = trimEnd s ++ ws /\ blank ws = true.
Proof.
  destruct (trimStart_split (rev s)) as (ws & Hs & Hws).
  exists (rev ws). split.
  - unfold trimEnd. rewrite <- rev_app_distr, <- Hs. symmetry. apply rev_involutive.
  - unfold blank in *. rewrite forallb_forall in *.
    intros c Hc. apply Hws. apply in_rev. exact Hc.
Qed.

Lemma trim_starts_clean (s : jsstring) : starts_clean (trim s) = true.
Proof. apply trimEnd_starts_clean, trimStart_starts_clean. Qed.

Lemma trim_idempotent (s : jsstring) : trim (trim s) = trim s.
Proof.
  unfold trim at 1. rewrite (trimStart_fixed _ (trim_starts_clean s)).
  unfold trim. apply trimEnd_idempotent.
Qed.

(** [trim] keeps a part of the string and removes white space only. *)
Lemma trim_split (s : jsstring) :
  exists before after,
    s = before ++ trim s ++ after /\ blank before = true /\ blank after = true.
Proof.
  destruct (trimStart_split s) as (before & Hs & Hb).
  destruct (trimEnd_split (trimStart s)) as (after & Ht & Ha).
  exists before, after. unfold trim. rewrite <- Ht. auto.
Qed.

Lemma trim_incl (s : jsstring) (c : code_unit) : In c (trim s) -> In c s.
Proof.
  intros H. destruct (trim_split s) as (before & after & Hs & _).
  rewrite Hs. apply in_or_app. right. apply in_or_app. left. exact H.
Qed.

Lemma trim_nil_iff (s : jsstring) : trim s = [] <-> blank s = true.
Proof.
  rewrite <- trimStart_nil_iff. unfold trim. split.
  - intros H. pose proof (trimStart_starts_clean s) as Hc.
    destruct (trimStart s) as [|c r]; [reflexivity |].
    cbn [starts_clean] in Hc. apply negb_true_iff in Hc.
    destruct (trimEnd_keeps_first c r Hc) as (x & Hx). congruence.
  - intros ->. reflexivity.
Qed.

Lemma split_not_nil (sep : code_unit) (s : jsstring) : split sep s <> [].
Proof.
  destruct s as [|c s]; [discriminate |]. cbn [split].
  destruct (c =? sep)%N; [discriminate |].
  destruct (split sep s); discriminate.
Qed.

(** No piece of a split holds the separator. *)
Lemma split_no_separator (sep : code_unit) (s line : jsstring) :
  In line (split sep s) -> ~ In sep line.
Proof.
  revert line. induction s as [|c s IH]; intros line.
  - intros [<- | []] [].
  - cbn [split]. destruct (c =? sep)%N eqn:Hc.
    + intros [<- | H]; [intros [] | apply IH; exact H].
    + destruct (split sep s) as [|first rest] eqn:Hsplit.
      * intros [<- | []] [-> | []]. rewrite N.eqb_refl in Hc. discriminate.
      * intros [<- | H].
        -- intros [-> | Hin]; [rewrite N.eqb_refl in Hc; discriminate |].
           apply (IH first); [left; reflexivity | exact Hin].
        -- apply IH. right. exact H.
Qed.

(** Joining the pieces with the separator gives the string back. *)
Lemma join_split (sep : code_unit) (s : jsstring) :
  join [sep] (split sep s) = s.
Proof.
  induction s as [|c s IH]; [reflexivity |].
  cbn [split]. destruct (c =? sep)%N eqn:Hc.
  - apply N.eqb_eq in Hc. subst c.
    pose proof (split_not_nil sep s) as Hne.
    destruct (split sep s) as [|first rest] eqn:Hsplit; [congruence |].
    cbn [join app] in *. rewrite IH. reflexivity.
  - destruct (split sep s) as [|first rest] eqn:Hsplit.
    + exfalso. exact (split_not_nil sep s Hsplit).
    + cbn [join] in *. destruct rest; cbn [app]; rewrite <- IH; reflexivity.
Qed.

(** ** More on traces and slices *)

Lemma requests_app (a b : list event) :
  requests (a ++ b) = requests a ++ requests b.
Proof. apply flat_map_app. Qed.

Lemma delays_app (a b : list event) : delays (a ++ b) = delays a ++ delays b.
Proof. apply flat_map_app. Qed.

Lemma delays_control (ev : list event) : delays (control ev) = delays ev.
Proof.
  unfold delays, control.
  induction ev as [|e ev IH]; [reflexivity |].
  destruct e; cbn; rewrite ?IH; reflexivity.
Qed.

Lemma progress_calls_only_fetches (ev : list event) :
  Forall (fun e => is_fetch e = true) ev -> progress_calls ev = [].
Proof.
  intros H. rewrite <- progress_calls_control, (control_only_fetches H).
  reflexivity.
Qed.

Lemma delays_only_fetches (ev : list event) :
  Forall (fun e => is_fetch e = true) ev -> delays ev = [].
Proof.
  intros H. rewrite <- delays_control, (control_only_fetches H). reflexivity.
Qed.





Section MoreChunks.

Context {A : Type}.
Variable size : nat.
Hypothesis size_pos : 0 < size.


End MoreChunks.

(** ** The form *)

Lemma starts_clean_not_blank (c : code_unit) (r : jsstring) :
  starts_clean (c :: r) = true -> blank (c :: r) = false.
Proof.
  cbn [starts_clean blank forallb]. intros H. apply negb_true_iff in H.
  rewrite H. reflexivity.
Qed.

Lemma getUsernames_nil_iff (value : jsstring) :
  getUsernames value = [] <-> blank value = true.
Proof.
  rewrite <- trim_nil_iff. unfold getUsernames.
  pose proof (trim_starts_clean value) as Hclean.
  destruct (trim value) as [|c r]; [split; reflexivity |].
  split; [| discriminate]. intros Hnone. exfalso.
  assert (Hc : is_whitespace c = false)
    by (cbn [starts_clean] in Hclean; apply negb_true_iff; exact Hclean).
  assert (Hlf : (c =? LF)%N = false).
  { destruct (c =? LF)%N eqn:E; [| reflexivity].
    apply N.eqb_eq in E. subst c. discriminate Hc. }
  cbn [split] in Hnone. rewrite Hlf in Hnone.
  assert (Hkept : forall line,
    (0 <? length (trim (c :: line))) = true).
  { intros line. destruct (trim (c :: line)) eqn:E; [| reflexivity].
    apply trim_nil_iff in E.
    rewrite (starts_clean_not_blank c line) in E; [discriminate |].
    cbn [starts_clean]. rewrite Hc. reflexivity. }
  destruct (split LF r) as [|line rest]; cbn [map filter] in Hnone;
    rewrite Hkept in Hnone; discriminate.
Qed.

Lemma getUsernames_clean (value : jsstring) :
  Forall (fun u => u <> [] /\ trim u = u) (getUsernames value).
Proof.
  apply Forall_forall. intros u.
  unfold getUsernames. destruct (trim value) as [|c r]; [intros [] |].
  intros H. apply filter_In in H as [H Hlen].
  apply in_map_iff in H as (line & <- & Hline). split.
  - intros E. rewrite E in Hlen. discriminate.
  - apply trim_idempotent.
Qed.

Lemma clean_usernames (us : list jsstring) :
  Forall (fun u => u <> [] /\ trim u = u) us ->
  map trim us = us /\ filter (fun u => negb (blank u)) us = us.
Proof.
  induction 1 as [|u us [Hne Hu] _ [IHt IHf]]; [split; reflexivity |].
  cbn [map filter]. rewrite Hu, IHt.
  destruct (blank u) eqn:Hb.
  - apply trim_nil_iff in Hb. congruence.
  - cbn [negb]. rewrite IHf. split; reflexivity.
Qed.

(** X1: every username [getUsernames] returns is non-empty, is what [trim]
    leaves unchanged, and holds no line feed; and there is none exactly
    when the textarea holds white space only. *)
Theorem getUsernames_entries (value : jsstring) :
  (forall u, In u (getUsernames value) ->
     u <> [] /\ trim u = u /\ ~ In LF u) /\
  (getUsernames value = [] <-> blank value = true).
Proof.
  split; [| apply getUsernames_nil_iff].
  intros u Hu.
  pose proof (getUsernames_clean value) as Hclean.
  rewrite Forall_forall in Hclean. destruct (Hclean u Hu) as [Hne Htrim].
  split; [exact Hne |]. split; [exact Htrim |].
  revert Hu. unfold getUsernames. destruct (trim value) as [|c r]; [intros [] |].
  intros H. apply filter_In in H as [H _].
  apply in_map_iff in H as (line & <- & Hline).
  intros Hin. apply trim_incl in Hin.
  exact (split_no_separator _ _ _ Hline Hin).
Qed.

Lemma getToken_trimmed_facts (value : jsstring) :
  getToken value = (if blank value then None else Some (trim value)) /\
  truthy (getToken value) = negb (blank value) /\
  batchSize (getToken value) = (if blank value then 5 else 10) /\
  delay (getToken value) = (if blank value then 500 else 100) /\
  (forall u,
     init_headers (direct_request u (getToken value)) =
     Some (if blank value then []
           else [(js "Authorization", js "token " ++ trim value)])).
Proof.
  assert (Hget : getToken value =
                 if blank value then None else Some (trim value)).
  { unfold getToken. destruct (trim value) as [|c r] eqn:Ht.
    - apply trim_nil_iff in Ht. rewrite Ht. reflexivity.
    - destruct (blank value) eqn:Hb; [| reflexivity].
      apply trim_nil_iff in Hb. congruence. }
  assert (Htruthy : truthy (getToken value) = negb (blank value)).
  { rewrite Hget. destruct (blank value) eqn:Hb; [reflexivity |].
    destruct (trim value) eqn:Ht; [| reflexivity].
    apply trim_nil_iff in Ht. congruence. }
  split; [exact Hget |]. split; [exact Htruthy |].
  unfold batchSize, delay, direct_request. cbn [init_headers].
  rewrite Htruthy, Hget.
  destruct (blank value); repeat split; reflexivity.
Qed.

(** X2: [getToken] returns [null] exactly when the field holds white space
    only, and the trimmed value otherwise; so a blank field is a run without
    token: batches of 5, delays of 500 ms and no [Authorization] header,
    and a filled one sends ["token "] and the trimmed value. *)
Theorem getToken_trimmed (value : jsstring) :
  getToken value = (if blank value then None else Some (trim value)) /\
  truthy (getToken value) = negb (blank value) /\
  batchSize (getToken value) = (if blank value then 5 else 10) /\
  delay (getToken value) = (if blank value then 500 else 100) /\
  (forall u,
     init_headers (direct_request u (getToken value)) =
     Some (if blank value then []
           else [(js "Authorization", js "token " ++ trim value)])).
Proof. apply getToken_trimmed_facts. Qed.

Lemma alnum_or_hyphen_unreserved (c : code_unit) :
  is_alnum_or_hyphen c = true -> is_uri_unreserved c = true.
Proof.
  unfold is_alnum_or_hyphen, is_alnum, is_uri_unreserved.
  destruct ((0x41 <=? c) && (c <=? 0x5A))%N; [reflexivity |].
  destruct ((0x61 <=? c) && (c <=? 0x7A))%N; [reflexivity |].
  destruct ((0x30 <=? c) && (c <=? 0x39))%N; [reflexivity |].
  cbn [orb]. intros H. apply N.eqb_eq in H. subst c. reflexivity.
Qed.

Lemma alnum_or_hyphen_not_whitespace (c : code_unit) :
  is_alnum_or_hyphen c = true -> is_whitespace c = false.
Proof.
  intros H. destruct (is_whitespace c) eqn:Hws; [| reflexivity].
  unfold is_whitespace in Hws. apply existsb_exists in Hws as (k & Hin & Hk).
  apply N.eqb_eq in Hk. subst k.
  cbn [In] in Hin.
  repeat (destruct Hin as [<- | Hin]; [discriminate H |]).
  contradiction.
Qed.

Lemma encodeURIComponent_unreserved (msg s : jsstring) :
  forallb is_uri_unreserved s = true -> encodeURIComponent msg s = inr s.
Proof.
  induction s as [|c s IH]; [reflexivity |].
  cbn [forallb encodeURIComponent]. rewrite andb_true_iff. intros [Hc Hs].
  rewrite Hc, (IH Hs). reflexivity.
Qed.

(** The encoding of a string without surrogates does not depend on what
    follows it. *)
Lemma encodeURIComponent_app (msg a b : jsstring) :
  no_surrogate a = true ->
  encodeURIComponent msg (a ++ b) =
  match encodeURIComponent msg a, encodeURIComponent msg b with
  | inr ra, inr rb => inr (ra ++ rb)
  | inl e, _ => inl e
  | inr _, inl e => inl e
  end.
Proof.
  induction a as [|c a IH].
  - intros _. cbn [app encodeURIComponent].
    destruct (encodeURIComponent msg b); reflexivity.
  - cbn [no_surrogate forallb]. rewrite !andb_true_iff, !negb_true_iff.
    intros [[Hlead Htrail] Ha]. specialize (IH Ha).
    destruct (encodeURIComponent_no_surrogate msg a Ha) as [ra Hra].
    cbn [app encodeURIComponent]. rewrite IH, Hra, Hlead, Htrail.
    destruct (is_uri_unreserved c);
      destruct (encodeURIComponent msg b); cbn [app];
      rewrite <- ?app_assoc; reflexivity.
Qed.

Lemma unreserved_no_surrogate (s : jsstring) :
  forallb is_uri_unreserved s = true -> no_surrogate s = true.
Proof.
  unfold no_surrogate. rewrite !forallb_forall. intros H c Hc.
  specialize (H c Hc).
  unfold is_uri_unreserved, is_lead_surrogate, is_trail_surrogate in *.
  rewrite !orb_true_iff in H.
  destruct H as [[[H | H] | H] | H].
  - apply andb_true_iff in H as [H1 H2].
    apply N.leb_le in H1, H2.
    rewrite andb_true_iff, !negb_true_iff, !andb_false_iff, !N.leb_gt. lia.
  - apply andb_true_iff in H as [H1 H2].
    apply N.leb_le in H1, H2.
    rewrite andb_true_iff, !negb_true_iff, !andb_false_iff, !N.leb_gt. lia.
  - apply andb_true_iff in H as [H1 H2].
    apply N.leb_le in H1, H2.
    rewrite andb_true_iff, !negb_true_iff, !andb_false_iff, !N.leb_gt. lia.
  - apply existsb_exists in H as (k & Hin & Hk).
    apply N.eqb_eq in Hk. subst k. cbn [In] in Hin.
    repeat (destruct Hin as [<- | Hin]; [reflexivity |]). contradiction.
Qed.

Lemma accepted_username_facts (msg u : jsstring) :
  username_format_test u = true ->
  u <> [] /\ length u <= 39 /\ trim u = u /\
  encodeURIComponent msg u = inr u /\
  encodeURIComponent msg (readme_url u) =
    inr (js "https%3A%2F%2Fraw.githubusercontent.com%2F" ++ u ++
         js "%2Fskills-getting-started-with-github-copilot%2Fmain%2FREADME.md").
Proof.
  intros Htest.
  assert (Hall : forallb is_alnum_or_hyphen u = true /\ u <> [] /\ length u <= 39).
  { destruct u as [|c rest]; [discriminate |].
    cbn [username_format_test] in Htest.
    apply andb_true_iff in Htest as [Htest Hlen].
    apply andb_true_iff in Htest as [Hc Hrest].
    apply Nat.leb_le in Hlen.
    split; [| split; [discriminate | cbn [length]; lia]].
    cbn [forallb]. unfold is_alnum_or_hyphen at 1. rewrite Hc, Hrest. reflexivity. }
  destruct Hall as (Hall & Hne & Hlen).
  assert (Hunres : forallb is_uri_unreserved u = true).
  { rewrite forallb_forall in *. intros c Hc.
    apply alnum_or_hyphen_unreserved, Hall, Hc. }
  assert (Hclean : forall s, forallb is_alnum_or_hyphen s = true ->
                   starts_clean s = true).
  { intros [|c s]; [reflexivity |]. cbn [forallb starts_clean].
    rewrite andb_true_iff. intros [Hc _].
    rewrite (alnum_or_hyphen_not_whitespace c Hc). reflexivity. }
  split; [exact Hne |]. split; [exact Hlen |]. split; [| split].
  - unfold trim. rewrite (trimStart_fixed _ (Hclean _ Hall)).
    unfold trimEnd. rewrite trimStart_fixed; [apply rev_involutive |].
    apply Hclean. rewrite forallb_forall in *. intros c Hc.
    apply Hall, in_rev, Hc.
  - apply encodeURIComponent_unreserved. exact Hunres.
  - unfold readme_url.
    rewrite encodeURIComponent_app by reflexivity.
    rewrite encodeURIComponent_app by (apply unreserved_no_surrogate; exact Hunres).
    rewrite (encodeURIComponent_unreserved msg u Hunres).
    reflexivity.
Qed.

(** X3: a username the form accepts has 1 to 39 code units, is unchanged
    by [trim] and by [encodeURIComponent], and the URL of its README is
    encoded without exception, to the URL with [%3A] and [%2F] for the
    colon and the slashes. *)
Theorem accepted_username (msg u : jsstring) :
  username_format_test u = true ->
  u <> [] /\ length u <= 39 /\ trim u = u /\
  encodeURIComponent msg u = inr u /\
  encodeURIComponent msg (readme_url u) =
    inr (js "https%3A%2F%2Fraw.githubusercontent.com%2F" ++ u ++
         js "%2Fskills-getting-started-with-github-copilot%2Fmain%2FREADME.md").
Proof. apply accepted_username_facts. Qed.

Lemma filter_negb_nil (A : Type) (f : A -> bool) (l : list A) :
  filter (fun x => negb (f x)) l = [] <-> Forall (fun x => f x = true) l.
Proof.
  induction l as [|x l IH]; [split; constructor |].
  cbn [filter]. destruct (f x) eqn:Hx; cbn [negb].
  - rewrite IH. split; [constructor; assumption | intros H; inversion H; assumption].
  - split; [discriminate | intros H; inversion H; congruence].
Qed.

Lemma validateForm_facts (value : jsstring) :
  (Form.isValid (validateForm value) = true <->
   getUsernames value <> [] /\
   Forall (fun u => username_format_test u = true) (getUsernames value)) /\
  (blank value = true ->
   Form.errors (validateForm value) =
     [js "Please enter at least one GitHub username"]) /\
  (blank value = false ->
   Form.errors (validateForm value) =
     match filter (fun u => negb (username_format_test u)) (getUsernames value) with
     | [] => []
     | invalid =>
       [js "Invalid username format: " ++ join (js ", ") invalid]
     end) /\
  length (Form.errors (validateForm value)) <= 1.
Proof.
  unfold validateForm. cbv zeta. cbn [Form.isValid Form.errors].
  pose proof (getUsernames_nil_iff value) as Hnil.
  pose proof (filter_negb_nil username_format_test (getUsernames value)) as Hfil.
  destruct (getUsernames value) as [|u us] eqn:Hus.
  - assert (Hb : blank value = true) by (apply Hnil; reflexivity).
    cbn. rewrite Hb. repeat split; try lia; try discriminate.
    intros [H _]. congruence.
  - assert (Hb : blank value = false).
    { destruct (blank value); [| reflexivity].
      destruct Hnil as [_ Hnil]. discriminate (Hnil eq_refl). }
    rewrite Hb. cbn [length Nat.eqb].
    destruct (filter (fun username => negb (username_format_test username))
                (u :: us)) as [|bad rest] eqn:Hbad.
    + cbn. repeat split; try lia; try discriminate.
      apply Hfil. reflexivity.
    + cbn [length Nat.ltb Nat.leb app]. repeat split; try lia; try discriminate.
      intros [_ Hall]. apply Hfil in Hall. discriminate.
Qed.

(** X4: [validateForm] accepts the textarea exactly when it names at least
    one username and every username has the format; it reports at most one
    error: the request for a username when the textarea is blank, otherwise
    the list of the usernames that have not the format, in their order. *)
Theorem validateForm_verdict (value : jsstring) :
  (Form.isValid (validateForm value) = true <->
   getUsernames value <> [] /\
   Forall (fun u => username_format_test u = true) (getUsernames value)) /\
  (blank value = true ->
   Form.errors (validateForm value) =
     [js "Please enter at least one GitHub username"]) /\
  (blank value = false ->
   Form.errors (validateForm value) =
     match filter (fun u => negb (username_format_test u)) (getUsernames value) with
     | [] => []
     | invalid =>
       [js "Invalid username format: " ++ join (js ", ") invalid]
     end) /\
  length (Form.errors (validateForm value)) <= 1.
Proof. apply validateForm_facts. Qed.

(** A form that is not valid has exactly one error. *)
Lemma validateForm_one_error (value : jsstring) :
  Form.isValid (validateForm value) = false ->
  exists msg, Form.errors (validateForm value) = [msg].
Proof.
  intros Hinvalid.
  destruct (validateForm_facts value) as (_ & _ & _ & Hlen).
  unfold validateForm in *. cbv zeta in *. cbn [Form.isValid Form.errors] in *.
  match goal with
  | H : length ?errors <= 1 |- _ =>
    destruct errors as [|msg [|msg' rest]];
      [discriminate Hinvalid | exists msg; reflexivity | cbn in H; lia]
  end.
Qed.

(** ** The display *)

Lemma count_result_cases (summary : Summary.t) (r : ValidationResult) :
  count_result summary r =
  match status_of r with
  | completed =>
    Summary.Make (Summary.total summary) (S (Summary.completed summary))
      (Summary.notCompleted summary) (Summary.errors summary)
  | not_completed =>
    Summary.Make (Summary.total summary) (Summary.completed summary)
      (S (Summary.notCompleted summary)) (Summary.errors summary)
  | error =>
    Summary.Make (Summary.total summary) (Summary.completed summary)
      (Summary.notCompleted summary) (S (Summary.errors summary))
  end.
Proof. unfold count_result. destruct (status_of r); reflexivity. Qed.

Lemma fold_count_result (results : list ValidationResult) (acc : Summary.t) :
  fold_left count_result results acc =
  Summary.Make (Summary.total acc)
    (Summary.completed acc + length (with_status completed results))
    (Summary.notCompleted acc + length (with_status not_completed results))
    (Summary.errors acc + length (with_status error results)).
Proof.
  revert acc. induction results as [|r results IH]; intros acc.
  - cbn. rewrite !Nat.add_0_r. destruct acc; reflexivity.
  - cbn [fold_left]. rewrite IH, count_result_cases.
    unfold with_status. cbn [filter].
    destruct (status_of r); cbn [Status_eqb Summary.total Summary.completed
      Summary.notCompleted Summary.errors length]; f_equal; lia.
Qed.

Lemma with_status_lengths (results : list ValidationResult) :
  length (with_status completed results) +
  length (with_status not_completed results) +
  length (with_status error results) = length results.
Proof.
  unfold with_status. induction results as [|r results IH]; [reflexivity |].
  cbn [filter]. destruct (status_of r); cbn [Status_eqb length]; lia.
Qed.

(** X5: [generateSummary] counts every result once: the three counts are
    the numbers of results of each status, and they add up to the total,
    the length of the list.  The strings [validateUser] stores are the case
    labels of the [switch]. *)
Theorem generateSummary_counts (results : list ValidationResult) :
  let summary := generateSummary results in
  Summary.total summary = length results /\
  Summary.completed summary = length (with_status completed results) /\
  Summary.notCompleted summary = length (with_status not_completed results) /\
  Summary.errors summary = length (with_status error results) /\
  Summary.completed summary + Summary.notCompleted summary +
    Summary.errors summary = Summary.total summary.
Proof.
  cbv zeta. unfold generateSummary. rewrite fold_count_result.
  cbn [Summary.total Summary.completed Summary.notCompleted Summary.errors].
  pose proof (with_status_lengths results). repeat split; lia.
Qed.

(** The number the comparator subtracts for a result. *)
Definition rank (r : ValidationResult) : Z :=
  match status_of r with
  | completed => 0
  | not_completed => 1
  | error => 2
  end.

Lemma compare_results_rank (a b : ValidationResult) :
  compare_results a b = (rank a - rank b)%Z.
Proof.
  unfold compare_results, rank.
  destruct (status_of a), (status_of b); reflexivity.
Qed.

Lemma insert_before_first (A : Type) (compare : A -> A -> Z) (x : A)
  (l : list A) :
  (forall y, In y l -> (compare x y <= 0)%Z) ->
  insert_before compare x l = x :: l.
Proof.
  destruct l as [|y l]; [reflexivity |]. intros H. cbn [insert_before].
  specialize (H y (or_introl eq_refl)). apply Z.leb_le in H.
  rewrite H. reflexivity.
Qed.

Lemma insert_before_after (A : Type) (compare : A -> A -> Z) (x : A)
  (before l : list A) :
  (forall y, In y before -> (0 < compare x y)%Z) ->
  insert_before compare x (before ++ l) = before ++ insert_before compare x l.
Proof.
  induction before as [|y before IH]; [reflexivity |]. intros H.
  cbn [app insert_before].
  pose proof (H y (or_introl eq_refl)) as Hy. apply Z.leb_gt in Hy.
  rewrite Hy, IH; [reflexivity |]. intros z Hz. apply H. right. exact Hz.
Qed.

Lemma with_status_rank (s : Status) (results : list ValidationResult)
  (y : ValidationResult) :
  In y (with_status s results) -> status_of y = s.
Proof.
  unfold with_status. intros H. apply filter_In in H as [_ H].
  destruct (status_of y), s; (reflexivity || discriminate).
Qed.

(** X6: [renderResults] shows every result once, the completed ones first,
    then the ones not completed, then the errors, each group in the order
    of the results. *)
Theorem sortedResults_grouped (results : list ValidationResult) :
  sortedResults results =
    with_status completed results ++ with_status not_completed results ++
    with_status error results /\
  Permutation results (sortedResults results) /\
  length (sortedResults results) = length results.
Proof.
  assert (Hsorted : sortedResults results =
    with_status completed results ++ with_status not_completed results ++
    with_status error results).
  { unfold sortedResults, sort.
    induction results as [|x results IH]; [reflexivity |].
    cbn [fold_right]. rewrite IH.
    assert (Hrank : forall s y, In y (with_status s results) ->
              rank y = rank (Result [] s [])).
    { intros s y Hy. apply with_status_rank in Hy.
      unfold rank. cbn [status_of]. rewrite Hy. reflexivity. }
    unfold with_status at 4 5 6. cbn [filter].
    fold (with_status completed results) (with_status not_completed results)
         (with_status error results).
    destruct (status_of x) eqn:Hx; cbn [Status_eqb].
    - apply insert_before_first. intros y _.
      rewrite compare_results_rank. unfold rank. rewrite Hx.
      destruct (status_of y); lia.
    - rewrite insert_before_after.
      + rewrite insert_before_first; [reflexivity |].
        intros y Hy. rewrite compare_results_rank.
        apply in_app_or in Hy as [Hy | Hy]; rewrite (Hrank _ _ Hy);
          unfold rank; cbn [status_of]; rewrite Hx; lia.
      + intros y Hy. rewrite compare_results_rank, (Hrank _ _ Hy).
        unfold rank. cbn [status_of]. rewrite Hx. lia.
    - rewrite insert_before_after.
      + rewrite insert_before_after.
        * rewrite insert_before_first; [reflexivity |].
          intros y Hy. rewrite compare_results_rank, (Hrank _ _ Hy).
          unfold rank. cbn [status_of]. rewrite Hx. lia.
        * intros y Hy. rewrite compare_results_rank, (Hrank _ _ Hy).
          unfold rank. cbn [status_of]. rewrite Hx. lia.
      + intros y Hy. rewrite compare_results_rank, (Hrank _ _ Hy).
        unfold rank. cbn [status_of]. rewrite Hx. lia. }
  split; [exact Hsorted |].
  assert (Hperm : Permutation results (sortedResults results)).
  { rewrite Hsorted. clear Hsorted. unfold with_status.
    induction results as [|x results IH]; [constructor |].
    cbn [filter]. destruct (status_of x); cbn [Status_eqb].
    - cbn [app]. constructor. exact IH.
    - apply Permutation_cons_app. exact IH.
    - rewrite app_assoc. apply Permutation_cons_app.
      rewrite <- app_assoc. exact IH. }
  split; [exact Hperm |]. symmetry. apply Permutation_length. exact Hperm.
Qed.

Lemma completed_filter (results : list ValidationResult) :
  filter (fun r => jsstring_eqb (Status_string (status_of r)) (js "completed"))
    results = with_status completed results.
Proof.
  unfold with_status. apply filter_ext. intros r.
  destruct (status_of r); reflexivity.
Qed.

(** X7: the message of [handleValidation] counts as [generateSummary] does.
    It says that all have completed exactly when every result is completed,
    also when there is no result at all; that none has, exactly when there
    are results and none is completed; otherwise it gives the count, which
    lies strictly between 0 and the total. *)
Theorem summary_message_cases (results : list ValidationResult) :
  (summary_message results = AllCompleted <->
   Forall (fun r => status_of r = completed) results) /\
  (summary_message results = NoneCompleted <->
   results <> [] /\ Forall (fun r => status_of r <> completed) results) /\
  (forall c t, summary_message results = SomeCompleted c t ->
     c = Summary.completed (generateSummary results) /\
     t = length results /\ 0 < c < t).
Proof.
  unfold summary_message. cbv zeta. rewrite completed_filter.
  destruct (generateSummary_counts results) as (_ & Hc & _).
  cbv zeta in Hc. rewrite Hc.
  pose proof (filter_length_le (fun r => Status_eqb (status_of r) completed)
                results) as Hle.
  fold (with_status completed results) in Hle.
  assert (Hall : length (with_status completed results) = length results <->
                 Forall (fun r => status_of r = completed) results).
  { unfold with_status. split.
    - intros H. apply filter_length_forallb in H.
      rewrite forallb_forall in H. apply Forall_forall. intros r Hr.
      specialize (H r Hr). destruct (status_of r); (reflexivity || discriminate).
    - intros H. f_equal. apply forallb_filter_id.
      rewrite Forall_forall in H. apply forallb_forall. intros r Hr.
      rewrite (H r Hr). reflexivity. }
  assert (Hnone : length (with_status completed results) = 0 <->
                  Forall (fun r => status_of r <> completed) results).
  { unfold with_status. rewrite length_zero_iff_nil. split.
    - intros H. apply Forall_forall. intros r Hr Hs.
      assert (Hin : In r (filter (fun r => Status_eqb (status_of r) completed)
                            results))
        by (apply filter_In; split; [exact Hr | rewrite Hs; reflexivity]).
      rewrite H in Hin. contradiction.
    - intros H. rewrite Forall_forall in H.
      destruct (filter (fun r => Status_eqb (status_of r) completed) results)
        as [|r rest] eqn:E; [reflexivity |].
      assert (Hin : In r (r :: rest)) by (left; reflexivity).
      rewrite <- E in Hin. apply filter_In in Hin as [Hr Hs].
      exfalso. apply (H r Hr). destruct (status_of r); (reflexivity || discriminate). }
  destruct (Nat.eqb_spec (length (with_status completed results)) (length results))
    as [Heq | Hneq].
  - split; [split; [intros _; apply Hall; exact Heq | reflexivity] |].
    split; [split; [discriminate |] | discriminate].
    intros [Hne Hno]. exfalso. apply Hnone in Hno.
    destruct results; [congruence | cbn [length] in Heq; lia].
  - destruct (Nat.eqb_spec (length (with_status completed results)) 0)
      as [Hzero | Hpos].
    + split; [split; [discriminate | intros H; apply Hall in H; contradiction] |].
      split; [| discriminate].
      split; [intros _ | reflexivity].
      split; [intros E; subst results; cbn in Hneq; congruence |].
      apply Hnone. exact Hzero.
    + split; [split; [discriminate | intros H; apply Hall in H; contradiction] |].
      split; [split; [discriminate | intros [_ H]; apply Hnone in H; contradiction] |].
      intros c t [= <- <-]. repeat split; lia.
Qed.

(** ** The Fetcher: case analysis *)

(** [fetchUserReadme] as one case analysis on what the network answers. *)
Lemma fetchUserReadme_cases (username : jsstring) (token : option jsstring)
  (w : World) :
  fetchUserReadme username token w =
  let direct := [EFetch (direct_request username token)] in
  match network (direct_request username token) w with
  | (inl e, w1) => (inr (Failure (message e)), w1, direct)
  | (inr response, w1) =>
    if ok response then
      match text response with
      | inl e => (inr (Failure (message e)), w1, direct)
      | inr content => (inr (Success (VStr content)), w1, direct)
      end
    else if (status response =? 403)%N then
      (inr (Failure RATE_LIMIT_ERROR), w1, direct)
    else if (status response =? 404)%N then
      (inr (Failure (js "Repository or README not found")), w1, direct)
    else
      match encodeURIComponent URIError_message (readme_url username) with
      | inl e => (inr (Failure (message e)), w1, direct)
      | inr encoded => fallback encoded w1 direct
      end
  end.
Proof.
  unfold fetchUserReadme, fetchUserReadme_try, fallback, try_catch,
    bind, fetch, lift, ret, throw, direct_request, proxy_request.
  cbv zeta.
  destruct (network _ w) as [[e | response] w1]; [reflexivity |].
  destruct (ok response); cbn [negb].
  - destruct (text response); reflexivity.
  - destruct (status response =? 403)%N; [reflexivity |].
    destruct (status response =? 404)%N; [reflexivity |].
    destruct (encodeURIComponent _ _) as [e | encoded]; [reflexivity |].
    destruct (network _ w1) as [[e | response2] w2]; [reflexivity |].
    destruct (ok response2); cbn [negb]; [| reflexivity].
    destruct (json response2) as [e | data]; [reflexivity |].
    destruct (get_property _ _); reflexivity.
Qed.


(** [validateUser] as one case analysis on what [fetchUserReadme] returns. *)
Lemma validateUser_cases (u : jsstring) (token : option jsstring) (w : World) :
  validateUser u token w =
  match trim u with
  | [] => (inr (Result [] error (js "Invalid username")), w, [])
  | _ :: _ =>
    match fetchUserReadme (trim u) token w with
    | (inr (Success content), w1, ev) => (content_check (trim u) content, w1, ev)
    | (inr (Failure reason), w1, ev) => (inr (Result (trim u) error reason), w1, ev)
    | (inl e, w1, ev) => (inr (Result (trim u) error (message e)), w1, ev)
    end
  end.
Proof.
  unfold validateUser, validateUser_try, content_check, try_catch, bind, lift, ret.
  destruct (trim u) as [|c tu]; [reflexivity |].
  destruct (fetchUserReadme (c :: tu) token w) as [[[e | [content | reason]] w1] ev].
  - rewrite app_nil_r. reflexivity.
  - destruct (checkCompletion content); rewrite !app_nil_r; reflexivity.
  - rewrite app_nil_r. reflexivity.
Qed.

Lemma direct_request_not_to_proxy (u : jsstring) (token : option jsstring) :
  to_proxy (direct_request u token) = false.
Proof. reflexivity. Qed.

Lemma proxy_request_to_proxy (encoded : jsstring) :
  to_proxy (proxy_request encoded) = true.
Proof.
  unfold to_proxy, proxy_request. cbn [url].
  apply startsWith_iff. exists encoded. reflexivity.
Qed.

(** Case analysis on what the indirection service answers, in a goal that
    mentions [fallback]. *)
Ltac fallback_cases encoded w1 :=
  unfold fallback;
  let e := fresh "e" in
  let response2 := fresh "response2" in
  let w2 := fresh "w2" in
  let data := fresh "data" in
  let Hnet := fresh "Hnet2" in
  let Hok := fresh "Hok2" in
  let Hjson := fresh "Hjson" in
  let Hget := fresh "Hget" in
  destruct (network (proxy_request encoded) w1) as [[e | response2] w2] eqn:Hnet;
  [| destruct (ok response2) eqn:Hok;
     [destruct (json response2) as [e | data] eqn:Hjson;
      [| destruct (get_property data (js "contents")) eqn:Hget] |]].

(** The requests one [validateUser] call makes: none, the direct one, or the
    direct one and one through the indirection service. *)
Lemma validateUser_requests (u : jsstring) (token : option jsstring) (w : World) :
  let made := requests (events_of (validateUser u token w)) in
  (trim u = [] /\ made = []) \/
  (trim u <> [] /\ made = [direct_request (trim u) token]) \/
  (trim u <> [] /\ exists encoded,
     encodeURIComponent URIError_message (readme_url (trim u)) = inr encoded /\
     made = [direct_request (trim u) token; proxy_request encoded]).
Proof.
  cbv zeta. rewrite validateUser_cases.
  destruct (trim u) as [|c tu] eqn:Htrim; [left; split; reflexivity |].
  right. rewrite fetchUserReadme_cases. cbv zeta.
  destruct (network (direct_request (c :: tu) token) w) as [[e | response] w1];
    [left; split; [discriminate | reflexivity] |].
  destruct (ok response);
    [destruct (text response); left; (split; [discriminate | reflexivity]) |].
  destruct (status response =? 403)%N;
    [left; split; [discriminate | reflexivity] |].
  destruct (status response =? 404)%N;
    [left; split; [discriminate | reflexivity] |].
  destruct (encodeURIComponent URIError_message (readme_url (c :: tu)))
    as [e | encoded] eqn:Henc; [left; split; [discriminate | reflexivity] |].
  right. split; [discriminate |]. exists encoded. split; [reflexivity |].
  fallback_cases encoded w1; reflexivity.
Qed.

(** ** Properties of the Fetcher *)

Lemma fallback_needed_tests (r : response) :
  fallback_needed r ->
  ok r = false /\ (status r =? 403)%N = false /\ (status r =? 404)%N = false.
Proof.
  intros (Hok & H403 & H404). rewrite <- !N.eqb_neq in *. auto.
Qed.

Lemma fetchUserReadme_returns (u : jsstring) (token : option jsstring) (w : World) :
  exists outcome, result_of (fetchUserReadme u token w) = inr outcome.
Proof.
  unfold fetchUserReadme, try_catch, ret, result_of.
  destruct (fetchUserReadme_try u token w) as [[[e | outcome] w1] ev];
    cbn; eauto.
Qed.

Lemma content_check_returns (u : jsstring) (content : jsval) :
  exists r, content_check u content = inr r /\ username r = u.
Proof.
  unfold content_check. destruct (checkCompletion content); eauto.
Qed.

(** One [validateUser] call returns a result for the trimmed username and
    emits nothing but requests. *)
Lemma validateUser_run (u : jsstring) (token : option jsstring) (w : World) :
  exists r w1 ev,
    validateUser u token w = (inr r, w1, ev) /\
    username r = trim u /\
    Forall (fun e => is_fetch e = true) ev.
Proof.
  rewrite validateUser_cases.
  destruct (trim u) as [|c tu]; [do 3 eexists; split; [reflexivity | auto] |].
  set (v := c :: tu).
  assert (Hev : forall r w1 ev,
    fetchUserReadme v token w = (r, w1, ev) ->
    Forall (fun e => is_fetch e = true) ev).
  { intros r w1 ev. rewrite fetchUserReadme_cases. cbv zeta.
    destruct (network (direct_request v token) w) as [[e | response1] w1'];
      [intros [= <- <- <-]; repeat constructor |].
    destruct (ok response1);
      [destruct (text response1); intros [= <- <- <-]; repeat constructor |].
    destruct (status response1 =? 403)%N;
      [intros [= <- <- <-]; repeat constructor |].
    destruct (status response1 =? 404)%N;
      [intros [= <- <- <-]; repeat constructor |].
    destruct (encodeURIComponent URIError_message (readme_url v))
      as [e | encoded]; [intros [= <- <- <-]; repeat constructor |].
    fallback_cases encoded w1'; intros [= <- <- <-]; repeat constructor. }
  destruct (fetchUserReadme v token w) as [[[e | [content | reason]] w1] ev]
    eqn:Hfetch; pose proof (Hev _ _ _ eq_refl) as Hfetches.
  - do 3 eexists. split; [reflexivity | auto].
  - destruct (content_check_returns v content) as (r & Hr & Hu).
    rewrite Hr. do 3 eexists. split; [reflexivity | auto].
  - do 3 eexists. split; [reflexivity | auto].
Qed.

(** A batch: every call returns, in the order of the slice. *)
Lemma Promise_all_validateUser (batch : list jsstring)
  (token : option jsstring) (w : World) :
  exists rs w1 ev,
    Promise_all (map (fun u => validateUser u token) batch) w = (inr rs, w1, ev) /\
    map username rs = map trim batch /\
    Forall (fun e => is_fetch e = true) ev.
Proof.
  revert w. induction batch as [|u batch IH]; intros w.
  - exists [], w, []. repeat split. constructor.
  - cbn [map Promise_all].
    destruct (validateUser_run u token w) as (r & w1 & ev1 & Hr & Hu & Hf1).
    destruct (IH w1) as (rs & w2 & ev2 & Hrs & Hus & Hf2).
    rewrite Hr, Hrs. exists (r :: rs), w2, (ev1 ++ ev2).
    split; [reflexivity |]. split.
    + cbn [map]. rewrite Hu, Hus. reflexivity.
    + apply Forall_app. split; assumption.
Qed.

(** What a raised exception makes of the run of [fetchUserReadme]: it is
    caught there, or the content check raises it on what was fetched. *)
Lemma raised_outcome (u : jsstring) (token : option jsstring) (w : World)
  (e : exn) :
  raised u token w e ->
  result_of (fetchUserReadme u token w) = inr (Failure (message e)) \/
  exists content,
    result_of (fetchUserReadme u token w) = inr (Success content) /\
    checkCompletion content = inl e.
Proof.
  intros H. rewrite fetchUserReadme_cases. cbv zeta. unfold fallback.
  destruct H as
    [w1 Hnet | r w1 Hnet Hok Htext | r w1 Hnet Hneed Henc
    | r w1 enc w2 Hnet Hneed Henc Hnet2
    | r w1 enc r2 w2 Hnet Hneed Henc Hnet2 Hok2 Hjson
    | r w1 enc r2 w2 data Hnet Hneed Henc Hnet2 Hok2 Hjson Hget
    | content w1 ev Hfetch Hcheck
    | r w1 Hnet Hok Hst He | r w1 Hnet Hok Hst He
    | r w1 enc r2 w2 Hnet Hneed Henc Hnet2 Hok2 He ];
    try (apply fallback_needed_tests in Hneed as (Hok & H403 & H404)).
  - rewrite Hnet. left. reflexivity.
  - rewrite Hnet, Hok, Htext. left. reflexivity.
  - rewrite Hnet, Hok, H403, H404, Henc. left. reflexivity.
  - rewrite Hnet, Hok, H403, H404, Henc, Hnet2. left. reflexivity.
  - rewrite Hnet, Hok, H403, H404, Henc, Hnet2, Hok2, Hjson. left. reflexivity.
  - rewrite Hnet, Hok, H403, H404, Henc, Hnet2, Hok2, Hjson, Hget.
    left. reflexivity.
  - right. exists content. rewrite fetchUserReadme_cases in Hfetch.
    cbv zeta in Hfetch. unfold fallback in Hfetch. rewrite Hfetch.
    split; [reflexivity | exact Hcheck].
  - rewrite Hnet, Hok, Hst, He. left. reflexivity.
  - rewrite Hnet, Hok, Hst, He. left. reflexivity.
  - rewrite Hnet, Hok, H403, H404, Henc, Hnet2, Hok2, He. left. reflexivity.
Qed.

(** C1: for every username and token, [validateUser] returns one result and
    never throws; the status of the result is [completed], [not_completed]
    or [error]; an exception raised by the direct fetch, by the fallback
    fetch or by the content check gives the status [error] with the message
    of the exception as details; and so the [Promise.all] of a batch of
    [validateUsers] never rejects. *)
Theorem validateUser_never_throws (u : jsstring) (token : option jsstring)
  (w : World) :
  exists r,
    result_of (validateUser u token w) = inr r /\
    username r = trim u /\
    (status_of r = completed \/ status_of r = not_completed \/
     status_of r = error) /\
    (forall e, trim u <> [] -> raised (trim u) token w e ->
               status_of r = error /\ details r = message e) /\
    (forall batch w0, exists rs,
       result_of (Promise_all (map (fun u0 => validateUser u0 token) batch) w0)
         = inr rs).
Proof.
  assert (Hbatch : forall batch w0, exists rs,
    result_of (Promise_all (map (fun u0 => validateUser u0 token) batch) w0)
      = inr rs).
  { intros batch w0.
    destruct (Promise_all_validateUser batch token w0) as (rs & w1 & ev & H & _).
    exists rs. rewrite H. reflexivity. }
  assert (Hstatus : forall r : ValidationResult,
    status_of r = completed \/ status_of r = not_completed \/
    status_of r = error) by (intros [? [] ?]; cbn; auto).
  rewrite validateUser_cases.
  destruct (trim u) as [|c tu] eqn:Htrim.
  - eexists. cbn. split; [reflexivity |]. split; [reflexivity |].
    split; [auto |]. split; [| exact Hbatch]. intros e H. congruence.
  - set (v := c :: tu) in *.
    assert (Hraised : forall e, raised v token w e ->
      result_of (fetchUserReadme v token w) = inr (Failure (message e)) \/
      exists content,
        result_of (fetchUserReadme v token w) = inr (Success content) /\
        checkCompletion content = inl e) by (intros e; apply raised_outcome).
    destruct (fetchUserReadme_returns v token w) as [outcome Hreturns].
    destruct (fetchUserReadme v token w) as [[r0 w1] ev].
    unfold result_of in *. cbn [fst] in *. subst r0.
    destruct outcome as [content | reason].
    + destruct (content_check_returns v content) as (r & Hr & Hu).
      exists r. split; [exact Hr |]. split; [exact Hu |].
      split; [apply Hstatus |]. split; [| exact Hbatch].
      intros e _ H.
      destruct (Hraised e H) as [Hcaught | (content' & Hsame & Hcheck)];
        [discriminate |].
      injection Hsame as <-. revert Hr. unfold content_check.
      rewrite Hcheck. intros [= <-]. cbn. auto.
    + exists (Result v error reason). cbn.
      split; [reflexivity |]. split; [reflexivity |]. split; [auto |].
      split; [| exact Hbatch]. intros e _ H.
      destruct (Hraised e H) as [Hcaught | (content' & Hsame & _)];
        [| discriminate].
      injection Hcaught as ->. auto.
Qed.

(** C7: for every token, [validateUser] on a username that is empty, or
    empty once trimmed, returns [{username: "", status: error, details:
    "Invalid username"}] at once: the world is untouched and no event is
    emitted, so neither the direct nor the fallback request is made. *)
Theorem validateUser_empty_username (u : jsstring) (token : option jsstring)
  (w : World) :
  trim u = [] ->
  validateUser u token w =
    (inr (Result [] error (js "Invalid username")), w, []).
Proof.
  intros Htrim. rewrite validateUser_cases, Htrim. reflexivity.
Qed.

Lemma differs_only_in_case_not_occurs (body : jsstring) :
  differs_only_in_case body COMPLETION_PHRASE ->
  ~ occurs_in COMPLETION_PHRASE body.
Proof.
  intros [Hneq Hfold] Hocc. apply Hneq.
  apply occurs_in_same_length; [| exact Hocc].
  rewrite <- (length_map fold_case body), Hfold. apply length_map.
Qed.

(** C4: for every body string the Fetcher obtained, the content check is the
    verbatim search of the marker: if the marker occurs in the body the
    result is [completed] with "Exercise completed successfully", otherwise
    [not_completed] with "Completion phrase not found"; a body that differs
    from the marker only in letter case gives [not_completed]. *)
Theorem content_check_is_verbatim_search (u : jsstring)
  (token : option jsstring) (w : World) (body : jsstring) (w1 : World)
  (ev : list event) :
  trim u <> [] ->
  fetchUserReadme (trim u) token w = (inr (Success (VStr body)), w1, ev) ->
  (occurs_in COMPLETION_PHRASE body ->
   validateUser u token w =
     (inr (Result (trim u) completed (js "Exercise completed successfully")),
      w1, ev)) /\
  (~ occurs_in COMPLETION_PHRASE body ->
   validateUser u token w =
     (inr (Result (trim u) not_completed (js "Completion phrase not found")),
      w1, ev)) /\
  (differs_only_in_case body COMPLETION_PHRASE ->
   validateUser u token w =
     (inr (Result (trim u) not_completed (js "Completion phrase not found")),
      w1, ev)).
Proof.
  intros Htrim Hfetch.
  assert (Hrun : validateUser u token w =
    (content_check (trim u) (VStr body), w1, ev)).
  { rewrite validateUser_cases.
    destruct (trim u) as [|c tu]; [congruence |]. rewrite Hfetch. reflexivity. }
  rewrite Hrun. unfold content_check, checkCompletion, call_includes.
  assert (Habsent : ~ occurs_in COMPLETION_PHRASE body ->
    includes body COMPLETION_PHRASE = false).
  { intros Hno. destruct (includes body COMPLETION_PHRASE) eqn:Hinc;
      [| reflexivity].
    apply includes_iff in Hinc. contradiction. }
  split; [| split].
  - intros Hocc. apply includes_iff in Hocc. rewrite Hocc. reflexivity.
  - intros Hno. rewrite (Habsent Hno). reflexivity.
  - intros Hcase.
    rewrite (Habsent (differs_only_in_case_not_occurs Hcase)). reflexivity.
Qed.

(** C3: the ordered decision policy on the direct response.  A success goes
    to the content check of its body; a 403 gives [error] with "API rate
    limit exceeded"; a 404 gives [error] with "Repository or README not
    found"; any other failure makes exactly one request through the
    indirection service, whose failure gives [error] with "HTTP", its
    status code and its reason phrase, and whose success sends the field
    [contents] of its JSON to the content check. *)
Theorem response_decision_policy (u : jsstring) (token : option jsstring)
  (w : World) (response1 : response) (w1 : World) :
  trim u <> [] ->
  network (direct_request (trim u) token) w = (inr response1, w1) ->
  let direct := EFetch (direct_request (trim u) token) in
  (ok response1 = true ->
   forall body, text response1 = inr body ->
   validateUser u token w =
     (content_check (trim u) (VStr body), w1, [direct])) /\
  (ok response1 = false -> status response1 = 403%N ->
   validateUser u token w =
     (inr (Result (trim u) error (js "API rate limit exceeded")),
      w1, [direct])) /\
  (ok response1 = false -> status response1 = 404%N ->
   validateUser u token w =
     (inr (Result (trim u) error (js "Repository or README not found")),
      w1, [direct])) /\
  (fallback_needed response1 ->
   forall encoded,
   encodeURIComponent URIError_message (readme_url (trim u)) = inr encoded ->
   let through_proxy := EFetch (proxy_request encoded) in
   requests (events_of (validateUser u token w)) =
     [direct_request (trim u) token; proxy_request encoded] /\
   forall response2 w2,
   network (proxy_request encoded) w1 = (inr response2, w2) ->
   (ok response2 = false ->
    validateUser u token w =
      (inr (Result (trim u) error
              (js "HTTP " ++ String_of_N (status response2) ++ js ": " ++
               statusText response2)),
       w2, [direct; through_proxy])) /\
   (ok response2 = true ->
    forall data contents,
    json response2 = inr data ->
    get_property data (js "contents") = inr contents ->
    validateUser u token w =
      (content_check (trim u) contents, w2, [direct; through_proxy]))).
Proof.
  intros Htrim Hnet. cbv zeta.
  rewrite validateUser_cases.
  destruct (trim u) as [|c tu] eqn:Hu; [congruence |].
  set (v := c :: tu) in *.
  rewrite fetchUserReadme_cases. cbv zeta. rewrite Hnet.
  split; [| split; [| split]].
  - intros Hok body Htext. rewrite Hok, Htext. reflexivity.
  - intros Hok Hst. rewrite Hok, Hst. reflexivity.
  - intros Hok Hst. rewrite Hok, Hst. reflexivity.
  - intros Hneed encoded Henc.
    apply fallback_needed_tests in Hneed as (Hok & H403 & H404).
    rewrite Hok, H403, H404, Henc. unfold fallback. split.
    + destruct (network (proxy_request encoded) w1) as [[e | response2] w2];
        [reflexivity |].
      destruct (ok response2); [| reflexivity].
      destruct (json response2) as [e | data]; [reflexivity |].
      destruct (get_property data (js "contents")); reflexivity.
    + intros response2 w2 Hnet2. rewrite Hnet2. split.
      * intros Hok2. rewrite Hok2. reflexivity.
      * intros Hok2 data contents Hjson Hget.
        rewrite Hok2, Hjson, Hget. reflexivity.
Qed.

Lemma fetchUserReadme_deterministic (u : jsstring) (token : option jsstring)
  (w w' : World) :
  deterministic_provider ->
  result_of (fetchUserReadme u token w) = result_of (fetchUserReadme u token w').
Proof.
  intros Hdet. rewrite !fetchUserReadme_cases. cbv zeta.
  pose proof (Hdet (direct_request u token) w w') as Hd.
  destruct (network (direct_request u token) w) as [r1 w1].
  destruct (network (direct_request u token) w') as [r1' w1'].
  cbn in Hd. subst r1'. destruct r1 as [e | response1]; [reflexivity |].
  destruct (ok response1); [destruct (text response1); reflexivity |].
  destruct (status response1 =? 403)%N; [reflexivity |].
  destruct (status response1 =? 404)%N; [reflexivity |].
  destruct (encodeURIComponent URIError_message (readme_url u)) as [e | encoded];
    [reflexivity |].
  unfold fallback.
  pose proof (Hdet (proxy_request encoded) w1 w1') as Hp.
  destruct (network (proxy_request encoded) w1) as [r2 w2].
  destruct (network (proxy_request encoded) w1') as [r2' w2'].
  cbn in Hp. subst r2'. destruct r2 as [e | response2]; [reflexivity |].
  destruct (ok response2); [| reflexivity].
  destruct (json response2) as [e | data]; [reflexivity |].
  destruct (get_property data (js "contents")); reflexivity.
Qed.

(** C8: when the network answers equal requests equally, [validateUser]
    gives the same result (username, status and details) for the same
    username and token whatever the world it starts from; in particular a
    second call gives the result of the first. *)
Theorem validateUser_deterministic (u : jsstring) (token : option jsstring)
  (w w' : World) :
  deterministic_provider ->
  result_of (validateUser u token w) = result_of (validateUser u token w') /\
  result_of (validateUser u token (world_of (validateUser u token w))) =
    result_of (validateUser u token w).
Proof.
  intros Hdet.
  assert (H : forall a b,
    result_of (validateUser u token a) = result_of (validateUser u token b)).
  { intros a b. rewrite !validateUser_cases.
    destruct (trim u) as [|c tu]; [reflexivity |].
    pose proof (fetchUserReadme_deterministic (c :: tu) token a b Hdet) as Hf.
    destruct (fetchUserReadme (c :: tu) token a) as [[ra wa] eva].
    destruct (fetchUserReadme (c :: tu) token b) as [[rb wb] evb].
    unfold result_of in Hf. cbn in Hf. subst rb.
    destruct ra as [e | [content | reason]]; reflexivity. }
  split; apply H.
Qed.

(** C9: the token never reaches the indirection service.  Every request of
    [validateUser] is the direct one or carries no headers; a request that
    goes to the proxy carries none, and it is the same request whatever the
    token and the world: it is built from the trimmed username alone. *)
Theorem token_not_sent_to_proxy (u : jsstring) (token token' : option jsstring)
  (w w' : World) (req req' : request) :
  In req (requests (events_of (validateUser u token w))) ->
  to_proxy req = true ->
  In req' (requests (events_of (validateUser u token' w'))) ->
  to_proxy req' = true ->
  init_headers req = None /\
  req = req' /\
  (exists encoded,
     encodeURIComponent URIError_message (readme_url (trim u)) = inr encoded /\
     req = proxy_request encoded) /\
  (forall r, In r (requests (events_of (validateUser u token w))) ->
     r = direct_request (trim u) token \/ init_headers r = None).
Proof.
  assert (H : forall t a r,
    In r (requests (events_of (validateUser u t a))) ->
    r = direct_request (trim u) t /\ to_proxy r = false \/
    exists encoded,
      encodeURIComponent URIError_message (readme_url (trim u)) = inr encoded /\
      r = proxy_request encoded).
  { intros t a r Hin.
    destruct (validateUser_requests u t a)
      as [[_ Hm] | [[_ Hm] | [_ (encoded & Henc & Hm)]]];
      cbv zeta in Hm; rewrite Hm in Hin; cbn in Hin.
    - contradiction.
    - destruct Hin as [<- | []]. left.
      split; [reflexivity | apply direct_request_not_to_proxy].
    - destruct Hin as [<- | [<- | []]].
      + left. split; [reflexivity | apply direct_request_not_to_proxy].
      + right. exists encoded. split; [exact Henc | reflexivity]. }
  intros Hin Hp Hin' Hp'.
  destruct (H _ _ _ Hin) as [[_ Hd] | (encoded & Henc & ->)]; [congruence |].
  destruct (H _ _ _ Hin') as [[_ Hd] | (encoded' & Henc' & ->)]; [congruence |].
  rewrite Henc in Henc'. injection Henc' as <-.
  split; [reflexivity |]. split; [reflexivity |]. split.
  - exists encoded. split; [exact Henc | reflexivity].
  - intros r Hr. destruct (H _ _ _ Hr) as [[-> _] | (e & _ & ->)]; auto.
Qed.

(** ** Properties of the orchestrator *)

(** The [for] loop, one iteration unfolded. *)
Lemma validateUsers_loop_step (usernames : list jsstring)
  (token : option jsstring) (progressCallback : option (callback World))
  (i : nat) (results : list ValidationResult) :
  validateUsers_loop usernames token progressCallback i results =
  if i <? length usernames then
    results' <- validateUsers_body usernames token progressCallback i results ;;
    validateUsers_loop usernames token progressCallback
                       (i + batchSize token) results'
  else ret results.
Proof.
  destruct (Nat.ltb_spec i (length usernames)) as [Hlt | Hge];
    simp validateUsers_loop;
    destruct (lt_dec i (length usernames)); try lia; reflexivity.
Qed.

Lemma call_progress_returns (progressCallback : option (callback World))
  (current total : nat) (w : World) :
  returns progressCallback ->
  exists w1,
    call_progress progressCallback current total w =
      (inr tt, w1,
       if supplied progressCallback then [EProgress current total] else []).
Proof.
  intros Hret. destruct progressCallback as [cb |]; cbn.
  - specialize (Hret current total w).
    destruct (cb current total w) as [r w1]. cbn in Hret. subst r.
    exists w1. reflexivity.
  - exists w. reflexivity.
Qed.

Section Run.

Variable usernames : list jsstring.
Variable token : option jsstring.
Variable progressCallback : option (callback World).
Hypothesis callback_returns : returns progressCallback.

(** One iteration: the slice is validated, its results are appended, the
    callback is called, and a delay follows unless the slice is the last. *)
Lemma validateUsers_body_run (i : nat) (results : list ValidationResult)
  (w : World) :
  let batch := slice i (i + batchSize token) usernames in
  exists batchResults w1 ev,
    validateUsers_body usernames token progressCallback i results w =
      (inr (results ++ batchResults), w1, ev) /\
    map username batchResults = map trim batch /\
    control ev =
      EBatch batch ::
      (if supplied progressCallback
       then [EProgress (length results + length batch) (length usernames)]
       else []) ++
      (if i + batchSize token <? length usernames
       then [EDelay (delay token)] else []).
Proof.
  cbv zeta. unfold validateUsers_body.
  set (batch := slice i (i + batchSize token) usernames).
  destruct (Promise_all_validateUser batch token w)
    as (rs & w1 & ev1 & Hrs & Hus & Hf).
  destruct (call_progress_returns progressCallback (length (results ++ rs))
              (length usernames) w1 callback_returns) as (w2 & Hcb).
  assert (Hlen : length rs = length batch)
    by (rewrite <- (length_map username rs), Hus; apply length_map).
  unfold bind at 1. unfold emit. unfold bind at 1. rewrite Hrs.
  unfold bind at 1. rewrite Hcb. unfold bind at 1.
  rewrite length_app, Hlen.
  destruct (i + batchSize token <? length usernames).
  - exists rs, (sleep (delay token) w2). eexists.
    split; [reflexivity |]. split; [exact Hus |].
    cbn [app]. unfold ret, setTimeout.
    change (EBatch batch :: ?l) with ([EBatch batch] ++ l).
    rewrite !control_app, (control_only_fetches Hf).
    destruct (supplied progressCallback); reflexivity.
  - exists rs, w2. eexists.
    split; [reflexivity |]. split; [exact Hus |].
    cbn [app]. unfold ret.
    change (EBatch batch :: ?l) with ([EBatch batch] ++ l).
    rewrite !control_app, (control_only_fetches Hf).
    destruct (supplied progressCallback); reflexivity.
Qed.

(** The loop from index [i]: it returns, with one result per remaining
    username, in order, and it runs the schedule of the remaining slices. *)
Lemma validateUsers_loop_run (i : nat) (results : list ValidationResult)
  (w : World) :
  exists rs w1 ev,
    validateUsers_loop usernames token progressCallback i results w =
      (inr (results ++ rs), w1, ev) /\
    map username rs = map trim (skipn i usernames) /\
    control ev =
      schedule token (supplied progressCallback) (length usernames)
        (length results) (chunks (batchSize token) (skipn i usernames)).
Proof.
  remember (length usernames - i) as n eqn:Hn. revert i results w Hn.
  induction n as [n IH] using lt_wf_ind. intros i results w Hn.
  pose proof (batchSize_pos token) as Hpos.
  rewrite validateUsers_loop_step.
  destruct (Nat.ltb_spec i (length usernames)) as [Hlt | Hge].
  - destruct (validateUsers_body_run i results w)
      as (brs & w1 & ev1 & Hbody & Hus & Hctl).
    cbv zeta in Hus, Hctl.
    destruct (IH (length usernames - (i + batchSize token)) ltac:(lia)
                 (i + batchSize token) (results ++ brs) w1 eq_refl)
      as (rs & w2 & ev2 & Hloop & Hus2 & Hctl2).
    unfold bind. rewrite Hbody, Hloop.
    exists (brs ++ rs), w2, (ev1 ++ ev2).
    assert (Hslice : slice i (i + batchSize token) usernames =
                     firstn (batchSize token) (skipn i usernames))
      by (unfold slice; f_equal; lia).
    assert (Hrest : skipn (i + batchSize token) usernames =
                    skipn (batchSize token) (skipn i usernames))
      by (rewrite skipn_skipn; f_equal; lia).
    assert (Hne : skipn i usernames <> []).
    { intros E. apply (f_equal (@length _)) in E.
      rewrite length_skipn in E. cbn in E. lia. }
    split; [rewrite app_assoc; reflexivity |]. split.
    + rewrite map_app, Hus, Hus2, Hslice, Hrest, <- map_app, firstn_skipn.
      reflexivity.
    + rewrite control_app, Hctl, Hctl2.
      rewrite (chunks_cons Hpos Hne), <- Hrest, <- Hslice.
      cbn [schedule]. set (batch := slice i (i + batchSize token) usernames).
      assert (Hlen : length brs = length batch)
        by (rewrite <- (length_map username brs), Hus; apply length_map).
      rewrite length_app, Hlen.
      assert (Hdelay :
        (if i + batchSize token <? length usernames
         then [EDelay (delay token)] else []) =
        match chunks (batchSize token) (skipn (i + batchSize token) usernames)
        with [] => [] | _ :: _ => [EDelay (delay token)] end).
      { destruct (Nat.ltb_spec (i + batchSize token) (length usernames))
          as [Hmore | Hlast].
        - destruct (chunks (batchSize token)
                      (skipn (i + batchSize token) usernames)) eqn:Hr;
            [| reflexivity].
          apply (proj1 (chunks_eq_nil Hpos _)) in Hr.
          apply (f_equal (@length _)) in Hr.
          rewrite length_skipn in Hr. cbn in Hr. lia.
        - rewrite (skipn_all2 usernames Hlast). reflexivity. }
      rewrite Hdelay. cbn [app]. rewrite <- !app_assoc. reflexivity.
  - exists [], w, []. unfold ret. rewrite app_nil_r.
    split; [reflexivity |].
    rewrite (skipn_all2 usernames Hge). repeat split.
Qed.

(** The whole run. *)
Lemma validateUsers_run (w : World) :
  exists rs w1 ev,
    validateUsers usernames token progressCallback w = (inr rs, w1, ev) /\
    map username rs = map trim usernames /\
    control ev =
      schedule token (supplied progressCallback) (length usernames) 0
        (chunks (batchSize token) usernames).
Proof.
  destruct (validateUsers_loop_run 0 [] w) as (rs & w1 & ev & H & Hus & Hctl).
  exists rs, w1, ev. auto.
Qed.

End Run.

(** Whatever the callback does, an iteration takes one slice, and the loop
    takes the slices of the partition in order, as far as it gets. *)
Lemma validateUsers_body_batches (usernames : list jsstring)
  (token : option jsstring) (progressCallback : option (callback World))
  (i : nat) (results : list ValidationResult) (w : World) :
  batches (events_of
    (validateUsers_body usernames token progressCallback i results w)) =
  [slice i (i + batchSize token) usernames].
Proof.
  unfold validateUsers_body.
  set (batch := slice i (i + batchSize token) usernames).
  destruct (Promise_all_validateUser batch token w)
    as (rs & w1 & ev1 & Hrs & _ & Hf).
  unfold bind at 1. unfold emit. unfold bind at 1. rewrite Hrs.
  unfold bind at 1.
  assert (Hcall : forall r w2 ev2,
    call_progress progressCallback (length (results ++ rs))
      (length usernames) w1 = (r, w2, ev2) -> batches ev2 = []).
  { destruct progressCallback as [cb |]; cbn.
    - destruct (cb _ _ w1). intros r w2 ev2 [= <- <- <-]. reflexivity.
    - intros r w2 ev2 [= <- <- <-]. reflexivity. }
  destruct (call_progress progressCallback (length (results ++ rs))
              (length usernames) w1) as [[[e | []] w2] ev2] eqn:Hcb;
    pose proof (Hcall _ _ _ eq_refl) as Hnone.
  - unfold events_of. cbn [snd app].
    change (EBatch batch :: ?l) with ([EBatch batch] ++ l).
    rewrite !batches_app, (batches_only_fetches Hf), Hnone. reflexivity.
  - unfold bind at 1.
    destruct (i + batchSize token <? length usernames);
      unfold setTimeout, ret, events_of; cbn [snd app];
      change (EBatch batch :: ?l) with ([EBatch batch] ++ l);
      rewrite !batches_app, (batches_only_fetches Hf), Hnone; reflexivity.
Qed.

Lemma validateUsers_loop_batches (usernames : list jsstring)
  (token : option jsstring) (progressCallback : option (callback World))
  (i : nat) (results : list ValidationResult) (w : World) :
  exists n,
    batches (events_of
      (validateUsers_loop usernames token progressCallback i results w)) =
    firstn n (chunks (batchSize token) (skipn i usernames)).
Proof.
  remember (length usernames - i) as m eqn:Hm. revert i results w Hm.
  induction m as [m IH] using lt_wf_ind. intros i results w Hm.
  pose proof (batchSize_pos token) as Hpos.
  rewrite validateUsers_loop_step.
  destruct (Nat.ltb_spec i (length usernames)) as [Hlt | Hge];
    [| exists 0; reflexivity].
  assert (Hne : skipn i usernames <> []).
  { intros E. apply (f_equal (@length _)) in E.
    rewrite length_skipn in E. cbn in E. lia. }
  rewrite (chunks_cons Hpos Hne), skipn_skipn.
  replace (batchSize token + i) with (i + batchSize token) by lia.
  replace (firstn (batchSize token) (skipn i usernames))
    with (slice i (i + batchSize token) usernames)
    by (unfold slice; f_equal; lia).
  pose proof (validateUsers_body_batches usernames token progressCallback
                i results w) as Hbody.
  unfold bind.
  destruct (validateUsers_body usernames token progressCallback i results w)
    as [[[e | results'] w1] ev1]; unfold events_of in Hbody; cbn [snd] in Hbody.
  - exists 1. unfold events_of. cbn [snd firstn]. exact Hbody.
  - destruct (IH (length usernames - (i + batchSize token)) ltac:(lia)
                 (i + batchSize token) results' w1 eq_refl) as [n Hn].
    destruct (validateUsers_loop usernames token progressCallback
                (i + batchSize token) results' w1) as [[r w2] ev2].
    unfold events_of in *. cbn [snd] in *.
    exists (S n). rewrite batches_app, Hbody, Hn. reflexivity.
Qed.

Lemma validateUsers_batches (usernames : list jsstring)
  (token : option jsstring) (progressCallback : option (callback World))
  (w : World) :
  returns progressCallback ->
  batches (events_of (validateUsers usernames token progressCallback w)) =
  chunks (batchSize token) usernames.
Proof.
  intros Hret.
  destruct (validateUsers_run usernames token _ Hret w)
    as (rs & w1 & ev & Hrun & _ & Hctl).
  rewrite Hrun. unfold events_of. cbn [snd].
  rewrite <- batches_control, Hctl. apply batches_schedule.
Qed.

(** C2: for every list of usernames and every token, with a callback that
    returns, [validateUsers] returns a list as long as the input whose i-th
    entry carries the i-th username, trimmed: the results are in the order
    of the input. *)
Theorem validateUsers_one_result_per_username (usernames : list jsstring)
  (token : option jsstring) (progressCallback : option (callback World))
  (w : World) :
  returns progressCallback ->
  exists rs,
    result_of (validateUsers usernames token progressCallback w) = inr rs /\
    length rs = length usernames /\
    map username rs = map trim usernames /\
    (forall i u, nth_error usernames i = Some u ->
       exists r, nth_error rs i = Some r /\ username r = trim u).
Proof.
  intros Hret.
  destruct (validateUsers_run usernames token _ Hret w)
    as (rs & w1 & ev & Hrun & Hus & _).
  exists rs. rewrite Hrun. split; [reflexivity |].
  split; [rewrite <- (length_map username rs), Hus; apply length_map |].
  split; [exact Hus |].
  intros i u Hi.
  assert (Hn : nth_error (map username rs) i = Some (trim u))
    by (rewrite Hus, nth_error_map, Hi; reflexivity).
  rewrite nth_error_map in Hn.
  destruct (nth_error rs i) as [r |]; [| discriminate].
  exists r. split; [reflexivity |]. cbn in Hn. congruence.
Qed.

(** C5: [validateUsers] cuts the list into consecutive slices of 10
    usernames when a token is present and of 5 when none is: the k-th slice
    it takes starts at index k times that size.  When the run is not cut
    short by a callback that throws, the slices make up the whole list and
    only the last one may be smaller; 23 usernames give slices of 10, 10
    and 3 with a token and of 5, 5, 5, 5 and 3 without. *)
Theorem validateUsers_batch_sizes (usernames : list jsstring)
  (token : option jsstring) (progressCallback : option (callback World))
  (w : World) :
  let slices :=
    batches (events_of (validateUsers usernames token progressCallback w)) in
  batchSize token = (if truthy token then 10 else 5) /\
  (forall k b, nth_error slices k = Some b ->
     b = slice (k * batchSize token) (k * batchSize token + batchSize token)
           usernames /\
     k * batchSize token < length usernames) /\
  (returns progressCallback ->
   concat slices = usernames /\
   Forall (fun b => 1 <= length b <= batchSize token) slices /\
   (forall k b, nth_error slices k = Some b -> S k < length slices ->
      length b = batchSize token) /\
   (length usernames = 23 ->
      map (@length jsstring) slices =
      if truthy token then [10; 10; 3] else [5; 5; 5; 5; 3])).
Proof.
  cbv zeta. pose proof (batchSize_pos token) as Hpos.
  split; [reflexivity |]. split.
  - intros k b Hk.
    destruct (validateUsers_loop_batches usernames token progressCallback
                0 [] w) as [n Hn].
    unfold validateUsers in Hk. rewrite Hn in Hk. cbn [skipn] in Hk.
    assert (Hin : nth_error (chunks (batchSize token) usernames) k = Some b).
    { destruct (Nat.lt_ge_cases k n) as [Hlt | Hge].
      - rewrite nth_error_firstn in Hk.
        apply Nat.ltb_lt in Hlt. rewrite Hlt in Hk. exact Hk.
      - rewrite nth_error_firstn in Hk.
        apply Nat.ltb_ge in Hge. rewrite Hge in Hk. discriminate. }
    destruct (chunks_nth Hpos _ _ Hin) as [-> Hlt].
    split; [unfold slice; f_equal; lia | exact Hlt].
  - intros Hret.
    rewrite (validateUsers_batches usernames token _ w Hret).
    split; [apply (concat_chunks Hpos) |].
    split; [apply (chunks_bounds Hpos) |].
    split; [intros k b; apply (chunks_full Hpos) |].
    intros Hlen. unfold batchSize.
    do 24 (destruct usernames as [|? usernames]; [discriminate Hlen || idtac |]);
      [| discriminate Hlen].
    destruct (truthy token); reflexivity.
Qed.

(** C6: for every non-empty list and every supplied callback that returns,
    [validateUsers] calls the callback once per batch, when the results of
    the batch are appended and before the delay that follows the batch; the
    first arguments are the running totals of results, strictly increasing;
    the second argument is always the length of the list; the first
    argument of the last call is the length of the list. *)
Theorem progress_once_per_batch (usernames : list jsstring)
  (token : option jsstring) (cb : callback World) (w : World) :
  usernames <> [] ->
  returns (Some cb) ->
  let ev := events_of (validateUsers usernames token (Some cb) w) in
  let calls := progress_calls ev in
  control ev = schedule token true (length usernames) 0 (batches ev) /\
  length calls = length (batches ev) /\
  map fst calls = running_totals 0 (batches ev) /\
  StronglySorted lt (map fst calls) /\
  Forall (fun c => snd c = length usernames) calls /\
  last (map fst calls) 0 = length usernames.
Proof.
  intros Hne Hret. cbv zeta.
  rewrite (validateUsers_batches usernames token _ w Hret).
  destruct (validateUsers_run usernames token _ Hret w)
    as (rs & w1 & ev & Hrun & _ & Hctl).
  rewrite Hrun. unfold events_of. cbn [snd]. cbn [supplied] in Hctl.
  pose proof (batchSize_pos token) as Hpos.
  set (slices := chunks (batchSize token) usernames) in *.
  assert (Hcalls : progress_calls ev =
    map (fun c => (c, length usernames)) (running_totals 0 slices))
    by (rewrite <- progress_calls_control, Hctl;
        apply progress_calls_schedule).
  assert (Hfst : map fst (progress_calls ev) = running_totals 0 slices).
  { rewrite Hcalls, map_map. cbn [fst]. apply map_id. }
  split; [exact Hctl |].
  split; [rewrite Hcalls, length_map; apply running_totals_length |].
  split; [exact Hfst |].
  split.
  { rewrite Hfst. apply running_totals_increasing.
    eapply Forall_impl; [| apply (chunks_bounds Hpos)]. cbn. intros b Hb. lia. }
  split.
  { rewrite Hcalls. apply Forall_map. apply Forall_forall. reflexivity. }
  rewrite Hfst, running_totals_last.
  - unfold slices. rewrite (concat_chunks Hpos). reflexivity.
  - unfold slices. intros E. apply (proj1 (chunks_eq_nil Hpos _)) in E.
    contradiction.
Qed.

(** C10: on the empty list [validateUsers] returns the empty list; the
    world is untouched and no event is emitted: no call of the callback, no
    request, no delay. *)
Theorem validateUsers_empty_list (token : option jsstring)
  (progressCallback : option (callback World)) (w : World) :
  validateUsers [] token progressCallback w = (inr [], w, []).
Proof.
  unfold validateUsers. rewrite validateUsers_loop_step. reflexivity.
Qed.

(** ** More on the pipeline *)

(** The requests one username may cost: none when it is blank, else the
    direct one, and after it at most one through the indirection service. *)
Definition requests_of_user (token : option jsstring) (u : jsstring)
  (made : list request) : Prop :=
  (trim u = [] /\ made = []) \/
  (trim u <> [] /\ made = [direct_request (trim u) token]) \/
  (trim u <> [] /\ exists encoded,
     encodeURIComponent URIError_message (readme_url (trim u)) = inr encoded /\
     made = [direct_request (trim u) token; proxy_request encoded]).

Lemma requests_of_user_count (token : option jsstring) (u : jsstring)
  (made : list request) :
  requests_of_user token u made ->
  (if blank u then 0 else 1) <= length made <= (if blank u then 0 else 2).
Proof.
  intros [[Hu ->] | [[Hu ->] | [Hu (encoded & _ & ->)]]].
  - apply trim_nil_iff in Hu. rewrite Hu. cbn. lia.
  - destruct (blank u) eqn:Hb; [apply trim_nil_iff in Hb; contradiction |].
    cbn. lia.
  - destruct (blank u) eqn:Hb; [apply trim_nil_iff in Hb; contradiction |].
    cbn. lia.
Qed.

Lemma requests_per_user_count (token : option jsstring)
  (us : list jsstring) (per_user : list (list request)) :
  Forall2 (requests_of_user token) us per_user ->
  length (filter (fun u => negb (blank u)) us) <= length (concat per_user) <=
    2 * length (filter (fun u => negb (blank u)) us).
Proof.
  induction 1 as [|u made us per_user Hu _ IH]; [cbn; lia |].
  apply requests_of_user_count in Hu.
  cbn [concat filter]. rewrite length_app.
  destruct (blank u); cbn [negb length] in *; lia.
Qed.

Lemma Promise_all_requests (batch : list jsstring) (token : option jsstring)
  (w : World) :
  exists per_user,
    requests (events_of
      (Promise_all (map (fun u => validateUser u token) batch) w)) =
      concat per_user /\
    Forall2 (requests_of_user token) batch per_user.
Proof.
  revert w. induction batch as [|u batch IH]; intros w.
  - exists []. split; [reflexivity | constructor].
  - cbn [map Promise_all].
    pose proof (validateUser_requests u token w) as Hu. cbv zeta in Hu.
    destruct (validateUser u token w) as [[r w1] ev1].
    destruct (IH w1) as (per_user & Hreq & Hall).
    destruct (Promise_all (map (fun u0 => validateUser u0 token) batch) w1)
      as [[rs w2] ev2].
    unfold events_of in *. cbn [snd] in *.
    exists (requests ev1 :: per_user). split.
    + rewrite requests_app, Hreq. reflexivity.
    + constructor; [exact Hu | exact Hall].
Qed.

Section Requests.

Variable usernames : list jsstring.
Variable token : option jsstring.
Variable progressCallback : option (callback World).
Hypothesis callback_returns : returns progressCallback.

(** One iteration, event by event. *)
Lemma validateUsers_body_exact (i : nat) (results : list ValidationResult)
  (w : World) :
  let batch := slice i (i + batchSize token) usernames in
  exists batchResults w1 ev1 w2,
    Promise_all (map (fun u => validateUser u token) batch) w =
      (inr batchResults, w1, ev1) /\
    validateUsers_body usernames token progressCallback i results w =
      (inr (results ++ batchResults), w2,
       EBatch batch :: ev1 ++
       (if supplied progressCallback
        then [EProgress (length (results ++ batchResults)) (length usernames)]
        else []) ++
       (if i + batchSize token <? length usernames
        then [EDelay (delay token)] else [])).
Proof.
  cbv zeta. unfold validateUsers_body.
  set (batch := slice i (i + batchSize token) usernames).
  destruct (Promise_all_validateUser batch token w)
    as (rs & w1 & ev1 & Hrs & _ & _).
  destruct (call_progress_returns progressCallback (length (results ++ rs))
              (length usernames) w1 callback_returns) as (w2 & Hcb).
  unfold bind at 1. unfold emit. unfold bind at 1. rewrite Hrs.
  unfold bind at 1. rewrite Hcb. unfold bind at 1.
  destruct (i + batchSize token <? length usernames).
  - exists rs, w1, ev1, (sleep (delay token) w2).
    split; [reflexivity |]. unfold setTimeout, ret. cbn [app].
    rewrite ?app_nil_r, <- ?app_assoc. reflexivity.
  - exists rs, w1, ev1, w2.
    split; [reflexivity |]. unfold ret. cbn [app].
    rewrite ?app_nil_r, <- ?app_assoc. reflexivity.
Qed.

Lemma validateUsers_loop_requests (i : nat) (results : list ValidationResult)
  (w : World) :
  exists per_user,
    requests (events_of
      (validateUsers_loop usernames token progressCallback i results w)) =
      concat per_user /\
    Forall2 (requests_of_user token) (skipn i usernames) per_user.
Proof.
  remember (length usernames - i) as n eqn:Hn. revert i results w Hn.
  induction n as [n IH] using lt_wf_ind. intros i results w Hn.
  pose proof (batchSize_pos token) as Hpos.
  rewrite validateUsers_loop_step.
  destruct (Nat.ltb_spec i (length usernames)) as [Hlt | Hge].
  - destruct (validateUsers_body_exact i results w)
      as (brs & w1 & ev1 & w2 & Hall & Hbody).
    cbv zeta in Hall, Hbody.
    destruct (Promise_all_requests (slice i (i + batchSize token) usernames)
                token w) as (pu1 & Hreq1 & Hpu1).
    rewrite Hall in Hreq1. unfold events_of in Hreq1. cbn [snd] in Hreq1.
    destruct (IH (length usernames - (i + batchSize token)) ltac:(lia)
                 (i + batchSize token) (results ++ brs) w2 eq_refl)
      as (pu2 & Hreq2 & Hpu2).
    unfold bind. rewrite Hbody.
    destruct (validateUsers_loop usernames token progressCallback
                (i + batchSize token) (results ++ brs) w2) as [[r w3] ev2].
    unfold events_of in *. cbn [snd] in *.
    exists (pu1 ++ pu2). split.
    + rewrite concat_app, <- Hreq1, <- Hreq2.
      change (EBatch ?b :: ?l) with ([EBatch b] ++ l).
      rewrite !requests_app.
      destruct (supplied progressCallback),
               (i + batchSize token <? length usernames);
        cbn [requests flat_map app]; rewrite ?app_nil_r; reflexivity.
    + rewrite <- (firstn_skipn (batchSize token) (skipn i usernames)).
      apply Forall2_app.
      * replace (firstn (batchSize token) (skipn i usernames))
          with (slice i (i + batchSize token) usernames)
          by (unfold slice; f_equal; lia).
        exact Hpu1.
      * rewrite skipn_skipn.
        replace (batchSize token + i) with (i + batchSize token) by lia.
        exact Hpu2.
  - exists []. rewrite (skipn_all2 usernames Hge).
    split; [reflexivity | constructor].
Qed.

End Requests.



(** The run when the callback throws on its first call. *)
Lemma validateUsers_callback_throws_run (usernames : list jsstring)
  (token : option jsstring) (cb : callback World) (e : exn) (w : World) :
  usernames <> [] ->
  (forall w1,
     fst (cb (Nat.min (batchSize token) (length usernames))
             (length usernames) w1) = inl e) ->
  exists w2 ev1,
    validateUsers usernames token (Some cb) w =
      (inl e, w2,
       [EBatch (firstn (batchSize token) usernames)] ++ ev1 ++
       [EProgress (Nat.min (batchSize token) (length usernames))
          (length usernames)]) /\
    Forall (fun e => is_fetch e = true) ev1.
Proof.
  intros Hne Hthrows.
  set (batch := firstn (batchSize token) usernames).
  unfold validateUsers. rewrite validateUsers_loop_step.
  assert (Hlen : (0 <? length usernames) = true)
    by (apply Nat.ltb_lt; destruct usernames; [congruence | cbn; lia]).
  rewrite Hlen. unfold bind at 1. unfold validateUsers_body.
  replace (slice 0 (0 + batchSize token) usernames) with batch
    by (unfold slice, batch; cbn [Nat.add skipn]; rewrite Nat.sub_0_r;
        reflexivity).
  destruct (Promise_all_validateUser batch token w)
    as (rs & w1 & ev1 & Hrs & Hus & Hf).
  assert (Hcount : length rs = Nat.min (batchSize token) (length usernames)).
  { rewrite <- (length_map username rs), Hus, length_map.
    unfold batch. apply length_firstn. }
  unfold bind at 1. unfold emit. unfold bind at 1. rewrite Hrs.
  unfold bind at 1. cbn [call_progress app length]. rewrite Hcount.
  specialize (Hthrows w1).
  destruct (cb (Nat.min (batchSize token) (length usernames))
               (length usernames) w1) as [r w2].
  cbn [fst] in Hthrows. subst r.
  exists w2, ev1. split; [reflexivity | exact Hf].
Qed.

(** X10: when the callback throws on its first call, [validateUsers] rejects
    with that exception once the first batch is done: that batch is the
    only one, the callback is called once, with the size of the batch and
    the length of the list, and there is no delay. *)
Theorem validateUsers_callback_throws (usernames : list jsstring)
  (token : option jsstring) (cb : callback World) (e : exn) (w : World) :
  usernames <> [] ->
  (forall w1,
     fst (cb (Nat.min (batchSize token) (length usernames))
             (length usernames) w1) = inl e) ->
  let run := validateUsers usernames token (Some cb) w in
  result_of run = inl e /\
  batches (events_of run) = [firstn (batchSize token) usernames] /\
  progress_calls (events_of run) =
    [(Nat.min (batchSize token) (length usernames), length usernames)] /\
  delays (events_of run) = [].
Proof.
  intros Hne Hthrows. cbv zeta.
  destruct (@validateUsers_callback_throws_run usernames token cb e w Hne Hthrows)
    as (w2 & ev1 & Hrun & Hf).
  rewrite Hrun. unfold result_of, events_of. cbn [fst snd].
  rewrite !batches_app, !progress_calls_app, !delays_app.
  rewrite (batches_only_fetches Hf), (progress_calls_only_fetches Hf),
    (delays_only_fetches Hf).
  repeat split.
Qed.

(** X11: when the indirection service answers with a JSON object that has no
    field [contents], the content check runs on [undefined] and throws; the
    result is [error] with the message of that [TypeError], not
    [not_completed]. *)
Theorem fallback_without_contents (u : jsstring) (token : option jsstring)
  (w : World) (response1 : response) (w1 : World) (encoded : jsstring)
  (response2 : response) (w2 : World) (fields : list (jsstring * jsval)) :
  trim u <> [] ->
  network (direct_request (trim u) token) w = (inr response1, w1) ->
  fallback_needed response1 ->
  encodeURIComponent URIError_message (readme_url (trim u)) = inr encoded ->
  network (proxy_request encoded) w1 = (inr response2, w2) ->
  ok response2 = true ->
  json response2 = inr (VObj fields) ->
  lookup_field (js "contents") fields = None ->
  validateUser u token w =
    (inr (Result (trim u) error (TypeError_message VUndefined (js "includes"))),
     w2,
     [EFetch (direct_request (trim u) token);
      EFetch (proxy_request encoded)]).
Proof.
  intros Hu Hnet Hneed Henc Hnet2 Hok2 Hjson Hnone.
  apply fallback_needed_tests in Hneed as (Hok & H403 & H404).
  rewrite validateUser_cases.
  destruct (trim u) as [|c tu] eqn:Htrim; [congruence |].
  rewrite fetchUserReadme_cases. cbv zeta.
  rewrite Hnet, Hok, H403, H404, Henc. unfold fallback.
  rewrite Hnet2, Hok2, Hjson. cbn [get_property]. rewrite Hnone.
  reflexivity.
Qed.

(** X12: from the form to the results.  On the usernames of the textarea
    and the token of the token field, with a callback that returns,
    [validateUsers] returns one result per username, under the username as
    [getUsernames] gave it, and makes at least one request per username and
    at most two. *)
Theorem form_to_results (value tokenValue : jsstring)
  (progressCallback : option (callback World)) (w : World) :
  returns progressCallback ->
  let usernames := getUsernames value in
  let run := validateUsers usernames (getToken tokenValue) progressCallback w in
  (exists rs, result_of run = inr rs /\ map username rs = usernames) /\
  length usernames <= length (requests (events_of run)) <= 2 * length usernames.
Proof.
  intros Hret. cbv zeta.
  pose proof (getUsernames_clean value) as Hclean.
  destruct (validateUsers_run (getUsernames value) (getToken tokenValue) _
              Hret w) as (rs & w1 & ev & Hrun & Hus & _).
  destruct (validateUsers_loop_requests (getUsernames value)
              (getToken tokenValue) _ Hret 0 [] w)
    as (per_user & Hreq & Hall).
  cbn [skipn] in Hall. fold (validateUsers (getUsernames value)
    (getToken tokenValue) progressCallback w) in Hreq.
  destruct (clean_usernames Hclean) as [Htrim Hnamed].
  split.
  - exists rs. rewrite Hrun. split; [reflexivity |]. congruence.
  - rewrite Hreq. pose proof (requests_per_user_count Hall) as Hcount.
    rewrite Hnamed in Hcount. exact Hcount.
Qed.

(** X13: for a username the form accepts, [validateUser] always makes the
    direct request for the username as it is, and after it either nothing
    or the one request to the indirection service for the encoded URL of
    the README: building that request never fails. *)
Theorem accepted_username_requests (u : jsstring) (token : option jsstring)
  (w : World) :
  username_format_test u = true ->
  let made := requests (events_of (validateUser u token w)) in
  let through_proxy :=
    proxy_request
      (js "https%3A%2F%2Fraw.githubusercontent.com%2F" ++ u ++
       js "%2Fskills-getting-started-with-github-copilot%2Fmain%2FREADME.md") in
  made = [direct_request u token] \/
  made = [direct_request u token; through_proxy].
Proof.
  intros Hu. cbv zeta.
  destruct (accepted_username_facts URIError_message u Hu)
    as (Hne & _ & Htrim & _ & Henc).
  destruct (validateUser_requests u token w)
    as [[Hblank _] | [[_ Hm] | [_ (encoded & Hencoded & Hm)]]];
    cbv zeta in *; rewrite Htrim in *.
  - contradiction.
  - left. exact Hm.
  - right. rewrite Henc in Hencoded. injection Hencoded as <-. exact Hm.
Qed.

(** ** The application *)

(** The callback [handleValidation] passes to [validateUsers]. *)
Definition progress_callback : callback World :=
  fun current total => ui (updateProgress current total).

(** What [handleValidation] does once the form is read and valid: the
    warning, and the validation between [showLoading] and [hideLoading]. *)
Definition warning_block (usernames : list jsstring) (token : option jsstring)
  : App unit :=
  if negb (truthy token) && (10 <? length usernames)
  then call showRateLimitWarning ;;~ wait 2000
  else app_ret tt.

Definition try_block (usernames : list jsstring) (token : option jsstring)
  : App unit :=
  app_try_catch
    (results <~
       pipeline (validateUsers usernames token (Some progress_callback)) ;;
     call (renderResults results) ;;~
     console (ConsoleLog (summary_message results)))
    (fun error =>
       console (ConsoleError error) ;;~
       call (showError (js "An error occurred during validation: " ++
                        message error))).

Definition loading_block (usernames : list jsstring) (token : option jsstring)
  : App unit :=
  call showLoading ;;~
  app_try_finally (try_block usernames token) (call hideLoading).

(** The events of the warning. *)
Definition warning_events (usernames : list jsstring)
  (token : option jsstring) : list app_event :=
  if negb (truthy token) && (10 <? length usernames)
  then [Call showRateLimitWarning; Wait 2000]
  else [].

Lemma handleValidation_valid (w w1 : World) (value tokenValue : jsstring) :
  ui clearResults w = (inr tt, w1) ->
  usernames_value w1 = inr value ->
  token_value w1 = inr tokenValue ->
  Form.isValid (validateForm value) = true ->
  handleValidation w =
  match (warning_block (getUsernames value) (getToken tokenValue) ;;~
         loading_block (getUsernames value) (getToken tokenValue)) w1 with
  | (r, w2, ev) => (r, w2, Call clearResults :: ev)
  end.
Proof.
  intros Hclear Hvalue Htoken Hvalid.
  unfold handleValidation, validateForm_page, getUsernames_page, getToken_page.
  unfold app_bind at 1. unfold call at 1. rewrite Hclear.
  unfold app_bind at 1. unfold app_bind at 1. unfold read at 1.
  rewrite Hvalue. unfold app_ret at 1. cbn [app]. rewrite Hvalid. cbn [negb].
  unfold app_bind at 1. unfold app_bind at 1. unfold read at 1.
  rewrite Hvalue. unfold app_ret at 1. cbn [app].
  unfold app_bind at 1. unfold app_bind at 1. unfold read at 1.
  rewrite Htoken. unfold app_ret at 1. cbn [app].
  unfold warning_block, loading_block, try_block, progress_callback.
  destruct (app_bind _ _ w1) as [[r w2] ev]. reflexivity.
Qed.

Lemma call_run (c : ui_call) (w : World) :
  fst (ui c w) = inr tt ->
  call c w = (inr tt, snd (ui c w), [Call c]).
Proof.
  unfold call. destruct (ui c w) as [r w1]. cbn [fst snd]. intros ->.
  reflexivity.
Qed.

Lemma warning_block_run (usernames : list jsstring) (token : option jsstring)
  (w : World) :
  (forall w0, fst (ui showRateLimitWarning w0) = inr tt) ->
  exists w1,
    warning_block usernames token w =
      (inr tt, w1, warning_events usernames token).
Proof.
  intros Hwarn. unfold warning_block, warning_events.
  destruct (negb (truthy token) && (10 <? length usernames)).
  - unfold app_bind. rewrite (call_run _ _ (Hwarn w)). unfold wait.
    eexists. reflexivity.
  - exists w. reflexivity.
Qed.

(** The block between [showLoading] and [hideLoading] ends with the call of
    [hideLoading], whatever happens in it. *)
Lemma loading_block_ends (usernames : list jsstring) (token : option jsstring)
  (w : World) :
  fst (ui showLoading w) = inr tt ->
  exists ev,
    trace_of (loading_block usernames token w) =
      Call showLoading :: ev ++ [Call hideLoading].
Proof.
  intros Hshow. unfold loading_block, app_bind.
  rewrite (call_run _ _ Hshow). unfold app_try_finally.
  destruct (try_block usernames token (snd (ui showLoading w)))
    as [[r w1] ev].
  unfold call. destruct (ui hideLoading w1) as [[e | []] w2];
    exists ev; reflexivity.
Qed.

(** X14: when the form is not valid, [handleValidation] clears the results,
    shows the one error of the form and stops: it makes no request, and the
    loading state is never shown. *)
Theorem handleValidation_invalid_form (w w1 : World) (value : jsstring) :
  ui clearResults w = (inr tt, w1) ->
  usernames_value w1 = inr value ->
  Form.isValid (validateForm value) = false ->
  exists msg,
    Form.errors (validateForm value) = [msg] /\
    handleValidation w =
      (fst (ui (showError msg) w1), snd (ui (showError msg) w1),
       [Call clearResults; Call (showError msg)]).
Proof.
  intros Hclear Hvalue Hinvalid.
  destruct (validateForm_one_error value Hinvalid) as [msg Hmsg].
  exists msg. split; [exact Hmsg |].
  unfold handleValidation, validateForm_page.
  unfold app_bind at 1. unfold call at 1. rewrite Hclear.
  unfold app_bind at 1. unfold app_bind at 1. unfold read at 1.
  rewrite Hvalue. unfold app_ret at 1. cbn [app].
  rewrite Hinvalid, Hmsg. cbn [negb join].
  unfold call. destruct (ui (showError msg) w1) as [r w2]. reflexivity.
Qed.

(** X15: when the form is valid and every function of [ui.js] returns,
    [handleValidation] returns; it calls [clearResults], shows the warning
    and waits 2000 ms exactly when the token field is blank and there are
    more than 10 usernames, calls [showLoading], runs [validateUsers] on
    the usernames and the token of the form, renders one result per
    username under its name, and ends with [hideLoading]. *)
Theorem handleValidation_valid_form (w w1 : World) (value tokenValue : jsstring) :
  (forall c w0, fst (ui c w0) = inr tt) ->
  ui clearResults w = (inr tt, w1) ->
  usernames_value w1 = inr value ->
  token_value w1 = inr tokenValue ->
  Form.isValid (validateForm value) = true ->
  let usernames := getUsernames value in
  let token := getToken tokenValue in
  exists rs w2 w3 w4 pev,
    validateUsers usernames token (Some progress_callback) w2 =
      (inr rs, w3, pev) /\
    map username rs = usernames /\
    handleValidation w =
      (inr tt, w4,
       [Call clearResults] ++
       (if blank tokenValue && (10 <? length usernames)
        then [Call showRateLimitWarning; Wait 2000] else []) ++
       [Call showLoading] ++ map Pipeline pev ++
       [Call (renderResults rs); ConsoleLog (summary_message rs);
        Call hideLoading]).
Proof.
  intros Hui Hclear Hvalue Htoken Hvalid. cbv zeta.
  rewrite (handleValidation_valid Hclear Hvalue Htoken Hvalid).
  set (usernames := getUsernames value). set (token := getToken tokenValue).
  destruct (warning_block_run usernames token w1 (Hui showRateLimitWarning))
    as (wa & Hwarning).
  unfold app_bind at 1. rewrite Hwarning.
  unfold loading_block, app_bind at 1. rewrite (call_run _ _ (Hui showLoading wa)).
  set (w2 := snd (ui showLoading wa)).
  assert (Hret : returns (Some progress_callback))
    by (intros current total w0; apply Hui).
  destruct (validateUsers_run usernames token _ Hret w2)
    as (rs & w3 & pev & Hrun & Hus & _).
  destruct (clean_usernames (getUsernames_clean value)) as [Htrim _].
  fold usernames in Htrim. rewrite Htrim in Hus.
  unfold app_try_finally, try_block, app_try_catch.
  unfold app_bind at 1. unfold pipeline at 1. rewrite Hrun.
  unfold app_bind at 1. rewrite (call_run _ _ (Hui (renderResults rs) w3)).
  unfold console. rewrite (call_run _ _ (Hui hideLoading _)).
  exists rs, w2, w3. eexists. exists pev.
  split; [exact Hrun |]. split; [exact Hus |].
  assert (Hcond : negb (truthy token) = blank tokenValue).
  { destruct (getToken_trimmed_facts tokenValue) as (_ & Htruthy & _).
    fold token in Htruthy. rewrite Htruthy. apply negb_involutive. }
  unfold warning_events. rewrite Hcond.
  destruct (blank tokenValue && (10 <? length usernames));
    cbn [app]; rewrite <- ?app_assoc; reflexivity.
Qed.

(** X16: when the form is valid and [updateProgress] throws, the rejection
    of [validateUsers] is caught: [handleValidation] returns, having shown
    the error with the message of the exception and called [hideLoading];
    it renders no result, and only the first batch was validated. *)
Theorem handleValidation_progress_throws (w w1 : World)
  (value tokenValue : jsstring) (e : exn) :
  (forall c w0, (forall current total, c <> updateProgress current total) ->
                fst (ui c w0) = inr tt) ->
  (forall current total w0, fst (ui (updateProgress current total) w0) = inl e) ->
  ui clearResults w = (inr tt, w1) ->
  usernames_value w1 = inr value ->
  token_value w1 = inr tokenValue ->
  Form.isValid (validateForm value) = true ->
  let usernames := getUsernames value in
  let token := getToken tokenValue in
  exists w2 w3 w4 pev,
    validateUsers usernames token (Some progress_callback) w2 =
      (inl e, w3, pev) /\
    batches pev = [firstn (batchSize token) usernames] /\
    handleValidation w =
      (inr tt, w4,
       [Call clearResults] ++ warning_events usernames token ++
       [Call showLoading] ++ map Pipeline pev ++
       [ConsoleError e;
        Call (showError (js "An error occurred during validation: " ++
                         message e));
        Call hideLoading]).
Proof.
  intros Hui Hthrows Hclear Hvalue Htoken Hvalid. cbv zeta.
  rewrite (handleValidation_valid Hclear Hvalue Htoken Hvalid).
  set (usernames := getUsernames value). set (token := getToken tokenValue).
  assert (Hcall : forall c w0,
    (forall current total, c <> updateProgress current total) ->
    call c w0 = (inr tt, snd (ui c w0), [Call c]))
    by (intros c w0 Hc; apply call_run, Hui, Hc).
  destruct (warning_block_run usernames token w1
              (fun w0 => Hui showRateLimitWarning w0 ltac:(discriminate)))
    as (wa & Hwarning).
  unfold app_bind at 1. rewrite Hwarning.
  unfold loading_block, app_bind at 1.
  rewrite (Hcall showLoading wa ltac:(discriminate)).
  set (w2 := snd (ui showLoading wa)).
  assert (Hne : usernames <> []).
  { destruct (validateForm_facts value) as (Hiff & _).
    apply Hiff in Hvalid as [Hne _]. exact Hne. }
  destruct (@validateUsers_callback_throws_run usernames token
              progress_callback e w2 Hne
              (fun w0 => Hthrows _ _ w0)) as (w3 & ev1 & Hrun & Hf).
  unfold app_try_finally, try_block, app_try_catch.
  unfold app_bind at 1. unfold pipeline at 1. rewrite Hrun.
  unfold app_bind at 1. unfold console at 1.
  rewrite (Hcall (showError _) w3 ltac:(discriminate)).
  rewrite (Hcall hideLoading _ ltac:(discriminate)).
  exists w2, w3. eexists. eexists.
  split; [exact Hrun |]. split.
  - rewrite !batches_app, (batches_only_fetches Hf). reflexivity.
  - cbn [app]. rewrite <- ?app_assoc. cbn [app]. reflexivity.
Qed.

(** X17: once the form is valid and [showLoading] has returned, the last
    thing [handleValidation] does is to call [hideLoading], whatever the
    network answers and whatever the other functions of [ui.js] do, also
    when rendering the results or showing the error throws. *)
Theorem handleValidation_hides_loading (w w1 : World)
  (value tokenValue : jsstring) :
  (forall w0, fst (ui showRateLimitWarning w0) = inr tt) ->
  (forall w0, fst (ui showLoading w0) = inr tt) ->
  ui clearResults w = (inr tt, w1) ->
  usernames_value w1 = inr value ->
  token_value w1 = inr tokenValue ->
  Form.isValid (validateForm value) = true ->
  exists ev,
    trace_of (handleValidation w) = ev ++ [Call hideLoading] /\
    In (Call showLoading) ev.
Proof.
  intros Hwarn Hshow Hclear Hvalue Htoken Hvalid.
  rewrite (handleValidation_valid Hclear Hvalue Htoken Hvalid).
  set (usernames := getUsernames value). set (token := getToken tokenValue).
  destruct (warning_block_run usernames token w1 Hwarn) as (wa & Hwarning).
  unfold app_bind at 1. rewrite Hwarning.
  destruct (loading_block_ends usernames token wa (Hshow wa)) as (ev & Hev).
  destruct (loading_block usernames token wa) as [[r w2] evl].
  unfold trace_of in *. cbn [snd] in *. subst evl.
  exists (Call clearResults :: warning_events usernames token ++
          Call showLoading :: ev).
  split.
  - cbn [app]. rewrite <- app_assoc. reflexivity.
  - right. apply in_or_app. right. left. reflexivity.
Qed.

End Pipeline.

(** ** A mock world

    The world counts the requests made; the network answers a request by
    its URL from a table, and rejects when the table has no entry. *)
Module Mock.

Definition World := nat.

Definition URIError_message : jsstring := js "URI malformed".

Definition TypeError_message (v : jsval) (name : jsstring) : jsstring :=
  match v with
  | VUndefined => js "Cannot read properties of undefined"
  | VNull => js "Cannot read properties of null"
  | _ => name ++ js " is not a function"
  end.

Fixpoint answer (table : list (jsstring * (exn + response))) (u : jsstring)
  : exn + response :=
  match table with
  | [] => inl (Exn (js "Failed to fetch"))
  | (k, r) :: rest => if jsstring_eqb k u then r else answer rest u
  end.

Definition network (table : list (jsstring * (exn + response)))
  (req : request) (w : World) : (exn + response) * World :=
  (answer table (url req), S w).

Definition sleep (ms : nat) (w : World) : World := w.

(** A response with a text body. *)
Definition page (code : N) (reason : string) (body : string) : response :=
  Response ((200 <=? code) && (code <=? 299))%N code (js reason)
    (inr (js body)) (inl (Exn (js "Unexpected token in JSON"))).

(** A response of the indirection service: a JSON object. *)
Definition envelope (code : N) (reason : string)
  (fields : list (jsstring * jsval)) : response :=
  Response ((200 <=? code) && (code <=? 299))%N code (js reason)
    (inr (js "{}")) (inr (VObj fields)).

Definition encoded_url (u : jsstring) : jsstring :=
  match encodeURIComponent URIError_message (readme_url u) with
  | inr e => e
  | inl _ => []
  end.

Definition proxied (u : jsstring) : jsstring := CORS_PROXY ++ encoded_url u.

Definition done_body : string :=
  "# Done. You've successfully completed this exercise! Great job".

Definition lower_case_body : string :=
  "you've successfully completed this exercise!".

(** alice is rate limited, ghost has no repository, bob has completed the
    exercise, carol's README has the marker in another case, dave's and
    erin's READMEs go through the indirection service. *)
Definition table : list (jsstring * (exn + response)) :=
  [ (readme_url (js "alice"), inr (page 403 "Forbidden" ""));
    (readme_url (js "ghost"), inr (page 404 "Not Found" ""));
    (readme_url (js "bob"), inr (page 200 "OK" done_body));
    (readme_url (js "carol"), inr (page 200 "OK" lower_case_body));
    (readme_url (js "dave"), inr (page 500 "Internal Server Error" ""));
    (proxied (js "dave"),
     inr (envelope 200 "OK" [(js "contents", VStr (js done_body))]));
    (readme_url (js "erin"), inr (page 500 "Internal Server Error" ""));
    (proxied (js "erin"), inr (envelope 502 "Bad Gateway" [])) ].

Definition run_validateUser
  : jsstring -> option jsstring -> M World ValidationResult :=
  validateUser (network table) URIError_message TypeError_message.

Definition run_validateUsers
  : list jsstring -> option jsstring -> option (callback World) ->
    M World (list ValidationResult) :=
  validateUsers (network table) sleep URIError_message TypeError_message.

(** A callback that only returns, and one that throws. *)
Definition quiet : callback World := fun _ _ w => (inr tt, w).
Definition failing : callback World :=
  fun _ _ w => (inl (Exn (js "progress bar is gone")), w).

Definition six : list jsstring :=
  map js ["alice"; " bob "; ""; "dave"; "erin"; "zed"]%string.

Definition twenty_three : list jsstring := repeat (js "bob") 23.

Definition secret : option jsstring := Some (js "ghp_secret").

End Mock.

(** ** The theorems at work on the mock world *)

Lemma quiet_returns : returns (Some Mock.quiet).
Proof. intros current total w. reflexivity. Defined.

Lemma validateUser_never_throws_witness :
  exists r,
    result_of (Mock.run_validateUser (js "zed") None 0) = inr r /\
    status_of r = error /\ details r = js "Failed to fetch".
Proof.
  destruct (@validateUser_never_throws Mock.World (Mock.network Mock.table)
              Mock.URIError_message Mock.TypeError_message (js "zed") None 0)
    as (r & Hr & _ & _ & Hraised & _).
  exists r. split; [exact Hr |].
  apply (Hraised (Exn (js "Failed to fetch"))).
  - vm_compute. discriminate.
  - apply raised_direct_fetch with (w1 := 1). reflexivity.
Defined.

Lemma validateUsers_one_result_per_username_witness :
  exists rs,
    result_of (Mock.run_validateUsers Mock.six None (Some Mock.quiet) 0) = inr rs /\
    length rs = 6 /\
    map username rs = map js ["alice"; "bob"; ""; "dave"; "erin"; "zed"]%string.
Proof.
  destruct (@validateUsers_one_result_per_username Mock.World
              (Mock.network Mock.table) Mock.sleep Mock.URIError_message
              Mock.TypeError_message Mock.six None (Some Mock.quiet) 0
              quiet_returns)
    as (rs & Hr & Hlen & Hus & _).
  exists rs. split; [exact Hr |]. split; [exact Hlen | exact Hus].
Defined.

(** With a callback that throws, [validateUsers] returns no list. *)
Lemma validateUsers_throwing_callback :
  ~ (exists rs,
       result_of (Mock.run_validateUsers [js "bob"] None (Some Mock.failing) 0)
         = inr rs /\
       length rs = 1).
Proof.
  intros (rs & Hr & _). vm_compute in Hr. discriminate.
Qed.

Lemma response_decision_policy_witness :
  Mock.run_validateUser (js "alice") None 0 =
    (inr (Result (js "alice") error (js "API rate limit exceeded")), 1,
     [EFetch (direct_request (js "alice") None)]) /\
  Mock.run_validateUser (js "ghost") None 0 =
    (inr (Result (js "ghost") error (js "Repository or README not found")), 1,
     [EFetch (direct_request (js "ghost") None)]) /\
  Mock.run_validateUser (js "erin") None 0 =
    (inr (Result (js "erin") error (js "HTTP 502: Bad Gateway")), 2,
     [EFetch (direct_request (js "erin") None);
      EFetch (proxy_request (Mock.encoded_url (js "erin")))]) /\
  Mock.run_validateUser (js "dave") None 0 =
    (inr (Result (js "dave") completed (js "Exercise completed successfully")),
     2,
     [EFetch (direct_request (js "dave") None);
      EFetch (proxy_request (Mock.encoded_url (js "dave")))]).
Proof.
  assert (Hpolicy : forall name response1,
    trim (js name) <> [] ->
    Mock.network Mock.table (direct_request (trim (js name)) None) 0 =
      (inr response1, 1) -> _)
    by exact (fun name response1 =>
      @response_decision_policy Mock.World (Mock.network Mock.table)
        Mock.URIError_message Mock.TypeError_message (js name) None 0
        response1 1).
  split; [| split; [| split]].
  - destruct (Hpolicy "alice"%string (Mock.page 403 "Forbidden" ""))
      as (_ & H403 & _);
      [vm_compute; discriminate | reflexivity |].
    exact (H403 eq_refl eq_refl).
  - destruct (Hpolicy "ghost"%string (Mock.page 404 "Not Found" ""))
      as (_ & _ & H404 & _);
      [vm_compute; discriminate | reflexivity |].
    exact (H404 eq_refl eq_refl).
  - destruct (Hpolicy "erin"%string (Mock.page 500 "Internal Server Error" ""))
      as (_ & _ & _ & Hfallback);
      [vm_compute; discriminate | reflexivity |].
    assert (Hneed : fallback_needed (Mock.page 500 "Internal Server Error" ""))
      by (repeat split; discriminate).
    destruct (Hfallback Hneed (Mock.encoded_url (js "erin")) eq_refl)
      as (_ & Hproxy).
    destruct (Hproxy (Mock.envelope 502 "Bad Gateway" []) 2 eq_refl)
      as (Hfailed & _).
    exact (Hfailed eq_refl).
  - destruct (Hpolicy "dave"%string (Mock.page 500 "Internal Server Error" ""))
      as (_ & _ & _ & Hfallback);
      [vm_compute; discriminate | reflexivity |].
    assert (Hneed : fallback_needed (Mock.page 500 "Internal Server Error" ""))
      by (repeat split; discriminate).
    destruct (Hfallback Hneed (Mock.encoded_url (js "dave")) eq_refl)
      as (_ & Hproxy).
    destruct (Hproxy
                (Mock.envelope 200 "OK"
                   [(js "contents", VStr (js Mock.done_body))]) 2 eq_refl)
      as (_ & Hok).
    exact (Hok eq_refl _ _ eq_refl eq_refl).
Defined.

Lemma content_check_is_verbatim_search_witness :
  Mock.run_validateUser (js "bob") None 0 =
    (inr (Result (js "bob") completed (js "Exercise completed successfully")),
     1, [EFetch (direct_request (js "bob") None)]) /\
  Mock.run_validateUser (js "carol") None 0 =
    (inr (Result (js "carol") not_completed (js "Completion phrase not found")),
     1, [EFetch (direct_request (js "carol") None)]).
Proof.
  split.
  - destruct (@content_check_is_verbatim_search Mock.World
                (Mock.network Mock.table) Mock.URIError_message
                Mock.TypeError_message (js "bob") None 0
                (js Mock.done_body) 1 [EFetch (direct_request (js "bob") None)])
      as (Hpresent & _);
      [vm_compute; discriminate | reflexivity |].
    apply Hpresent. exists (js "# Done. "), (js " Great job"). reflexivity.
  - destruct (@content_check_is_verbatim_search Mock.World
                (Mock.network Mock.table) Mock.URIError_message
                Mock.TypeError_message (js "carol") None 0
                (js Mock.lower_case_body) 1
                [EFetch (direct_request (js "carol") None)])
      as (_ & _ & Hcase);
      [vm_compute; discriminate | reflexivity |].
    apply Hcase. split; [vm_compute; discriminate | reflexivity].
Defined.

Lemma validateUsers_batch_sizes_witness :
  map (@length jsstring)
    (batches (events_of
       (Mock.run_validateUsers Mock.twenty_three Mock.secret
          (Some Mock.quiet) 0))) = [10; 10; 3] /\
  map (@length jsstring)
    (batches (events_of
       (Mock.run_validateUsers Mock.twenty_three None None 0))) =
    [5; 5; 5; 5; 3].
Proof.
  split.
  - destruct (@validateUsers_batch_sizes Mock.World (Mock.network Mock.table)
                Mock.sleep Mock.URIError_message Mock.TypeError_message
                Mock.twenty_three Mock.secret (Some Mock.quiet) 0)
      as (_ & _ & Hwhole).
    destruct (Hwhole quiet_returns) as (_ & _ & _ & Hsizes).
    exact (Hsizes eq_refl).
  - destruct (@validateUsers_batch_sizes Mock.World (Mock.network Mock.table)
                Mock.sleep Mock.URIError_message Mock.TypeError_message
                Mock.twenty_three None None 0)
      as (_ & _ & Hwhole).
    destruct (Hwhole I) as (_ & _ & _ & Hsizes).
    exact (Hsizes eq_refl).
Defined.

Lemma progress_once_per_batch_witness :
  progress_calls (events_of
    (Mock.run_validateUsers Mock.six None (Some Mock.quiet) 0)) =
    [(5, 6); (6, 6)] /\
  last (map fst (progress_calls (events_of
    (Mock.run_validateUsers Mock.six None (Some Mock.quiet) 0)))) 0 = 6.
Proof.
  split; [reflexivity |].
  assert (Hne : Mock.six <> []) by discriminate.
  destruct (@progress_once_per_batch Mock.World (Mock.network Mock.table)
              Mock.sleep Mock.URIError_message Mock.TypeError_message
              Mock.six None Mock.quiet 0 Hne quiet_returns)
    as (_ & _ & _ & _ & _ & Hlast).
  exact Hlast.
Defined.

(** With a callback that throws, the second batch never runs: the callback
    is called once, with 5 of 6. *)
Lemma progress_throwing_callback :
  ~ (last (map fst (progress_calls (events_of
       (Mock.run_validateUsers Mock.six None (Some Mock.failing) 0)))) 0 =
     length Mock.six).
Proof. vm_compute. discriminate. Qed.

Lemma validateUser_empty_username_witness :
  Mock.run_validateUser (js "   ") Mock.secret 7 =
    (inr (Result [] error (js "Invalid username")), 7, []).
Proof.
  apply (@validateUser_empty_username Mock.World (Mock.network Mock.table)
           Mock.URIError_message Mock.TypeError_message (js "   ")
           Mock.secret 7).
  reflexivity.
Defined.

Lemma mock_is_deterministic : deterministic_provider (Mock.network Mock.table).
Proof. intros req w1 w2. reflexivity. Defined.

Lemma validateUser_deterministic_witness :
  result_of (Mock.run_validateUser (js "dave") None 0) =
  result_of (Mock.run_validateUser (js "dave") None 2).
Proof.
  apply (@validateUser_deterministic Mock.World (Mock.network Mock.table)
           Mock.URIError_message Mock.TypeError_message (js "dave") None 0 2
           mock_is_deterministic).
Defined.

Lemma token_not_sent_to_proxy_witness :
  init_headers (proxy_request (Mock.encoded_url (js "dave"))) = None /\
  In (proxy_request (Mock.encoded_url (js "dave")))
     (requests (events_of (Mock.run_validateUser (js "dave") Mock.secret 0))).
Proof.
  assert (Hsent : forall token,
    In (proxy_request (Mock.encoded_url (js "dave")))
       (requests (events_of (Mock.run_validateUser (js "dave") token 0))))
    by (intros [[|c t] |]; right; left; reflexivity).
  split; [| apply Hsent].
  apply (@token_not_sent_to_proxy Mock.World (Mock.network Mock.table)
           Mock.URIError_message Mock.TypeError_message (js "dave")
           Mock.secret None 0 0
           (proxy_request (Mock.encoded_url (js "dave")))
           (proxy_request (Mock.encoded_url (js "dave")))
           (Hsent Mock.secret) eq_refl (Hsent None) eq_refl).
Defined.

(** ** A mock page

    The functions of [ui.js] only return, or [updateProgress] throws; the
    form holds fixed values; frank's README goes through the indirection
    service, which answers without [contents]. *)
Module Page.

Definition table : list (jsstring * (exn + response)) :=
  (readme_url (js "frank"), inr (Mock.page 500 "Internal Server Error" "")) ::
  (Mock.proxied (js "frank"),
   inr (Mock.envelope 200 "OK" [(js "status", VNumber)])) ::
  Mock.table.

Definition run_validateUser
  : jsstring -> option jsstring -> M Mock.World ValidationResult :=
  validateUser (Mock.network table) Mock.URIError_message Mock.TypeError_message.

Definition ui (c : ui_call) (w : Mock.World) : (exn + unit) * Mock.World :=
  (inr tt, w).

Definition gone : exn := Exn (js "Cannot set properties of null").

Definition ui_without_button (c : ui_call) (w : Mock.World)
  : (exn + unit) * Mock.World :=
  match c with
  | updateProgress _ _ => (inl gone, w)
  | _ => (inr tt, w)
  end.

Definition line_feed : string := String (ascii_of_nat 10) EmptyString.

(** Three lines, one of them blank. *)
Definition two_names : jsstring :=
  js (" bob " ++ line_feed ++ line_feed ++ "alice").

Definition bad_name : jsstring := js "-bob".

Definition field (value : jsstring) (w : Mock.World) : exn + jsstring :=
  inr value.

Definition handleValidation (ui : ui_call -> Mock.World -> (exn + unit) * Mock.World)
  (usernames token : jsstring) : App Mock.World unit :=
  handleValidation (Mock.network Mock.table) Mock.sleep Mock.URIError_message
    Mock.TypeError_message ui (field usernames) (field token).

End Page.

Lemma accepted_username_witness :
  trim (js "octo-cat") = js "octo-cat" /\
  encodeURIComponent Mock.URIError_message (js "octo-cat") = inr (js "octo-cat").
Proof.
  destruct (@accepted_username Mock.URIError_message (js "octo-cat") eq_refl)
    as (_ & _ & Htrim & Hencoded & _).
  split; assumption.
Defined.



Lemma validateUsers_callback_throws_witness :
  result_of (Mock.run_validateUsers Mock.six None (Some Mock.failing) 0) =
    inl (Exn (js "progress bar is gone")) /\
  progress_calls (events_of
    (Mock.run_validateUsers Mock.six None (Some Mock.failing) 0)) = [(5, 6)].
Proof.
  assert (Hne : Mock.six <> []) by discriminate.
  destruct (@validateUsers_callback_throws Mock.World (Mock.network Mock.table)
              Mock.sleep Mock.URIError_message Mock.TypeError_message
              Mock.six None Mock.failing (Exn (js "progress bar is gone")) 0
              Hne (fun w1 => eq_refl))
    as (Hresult & _ & Hcalls & _).
  split; [exact Hresult | exact Hcalls].
Defined.

Lemma fallback_without_contents_witness :
  Page.run_validateUser (js "frank") None 0 =
    (inr (Result (js "frank") error (js "Cannot read properties of undefined")),
     2,
     [EFetch (direct_request (js "frank") None);
      EFetch (proxy_request (Mock.encoded_url (js "frank")))]).
Proof.
  assert (Hu : trim (js "frank") <> []) by (vm_compute; discriminate).
  assert (Hneed : fallback_needed (Mock.page 500 "Internal Server Error" ""))
    by (repeat split; discriminate).
  exact (@fallback_without_contents Mock.World (Mock.network Page.table)
           Mock.URIError_message Mock.TypeError_message (js "frank") None 0
           (Mock.page 500 "Internal Server Error" "") 1
           (Mock.encoded_url (js "frank"))
           (Mock.envelope 200 "OK" [(js "status", VNumber)]) 2
           [(js "status", VNumber)]
           Hu eq_refl Hneed eq_refl eq_refl eq_refl eq_refl eq_refl).
Defined.

Lemma form_to_results_witness :
  exists rs,
    result_of (Mock.run_validateUsers (getUsernames Page.two_names)
                 (getToken (js "  ")) (Some Mock.quiet) 0) = inr rs /\
    map username rs = [js "bob"; js "alice"].
Proof.
  destruct (@form_to_results Mock.World (Mock.network Mock.table) Mock.sleep
              Mock.URIError_message Mock.TypeError_message Page.two_names
              (js "  ") (Some Mock.quiet) 0 quiet_returns)
    as ((rs & Hrs & Hus) & _).
  exists rs. split; [exact Hrs | exact Hus].
Defined.

Lemma accepted_username_requests_witness :
  requests (events_of (Mock.run_validateUser (js "dave") None 0)) =
    [direct_request (js "dave") None] \/
  requests (events_of (Mock.run_validateUser (js "dave") None 0)) =
    [direct_request (js "dave") None;
     proxy_request
       (js "https%3A%2F%2Fraw.githubusercontent.com%2F" ++ js "dave" ++
        js "%2Fskills-getting-started-with-github-copilot%2Fmain%2FREADME.md")].
Proof.
  exact (@accepted_username_requests Mock.World (Mock.network Mock.table)
           Mock.URIError_message Mock.TypeError_message (js "dave") None 0
           eq_refl).
Defined.

Lemma handleValidation_invalid_form_witness :
  Page.handleValidation Page.ui Page.bad_name (js "") 0 =
    (inr tt, 0,
     [Call clearResults;
      Call (showError (js "Invalid username format: -bob"))]).
Proof.
  destruct (@handleValidation_invalid_form Mock.World (Mock.network Mock.table)
              Mock.sleep Mock.URIError_message Mock.TypeError_message Page.ui
              (Page.field Page.bad_name) (Page.field (js "")) 0 0
              Page.bad_name eq_refl eq_refl eq_refl)
    as (msg & Hmsg & Hrun).
  injection Hmsg as <-. exact Hrun.
Defined.

Lemma handleValidation_valid_form_witness :
  exists w pev,
    Page.handleValidation Page.ui Page.two_names (js "") 0 =
      (inr tt, w,
       [Call clearResults; Call showLoading] ++ map Pipeline pev ++
       [Call (renderResults
                [Result (js "bob") completed (js "Exercise completed successfully");
                 Result (js "alice") error (js "API rate limit exceeded")]);
        ConsoleLog (SomeCompleted 1 2);
        Call hideLoading]).
Proof.
  destruct (@handleValidation_valid_form Mock.World (Mock.network Mock.table)
              Mock.sleep Mock.URIError_message Mock.TypeError_message Page.ui
              (Page.field Page.two_names) (Page.field (js "")) 0 0
              Page.two_names (js "") (fun c w0 => eq_refl) eq_refl eq_refl
              eq_refl eq_refl)
    as (rs & w2 & w3 & w4 & pev & Hrun & _ & Hall).
  assert (Hrs : rs =
    [Result (js "bob") completed (js "Exercise completed successfully");
     Result (js "alice") error (js "API rate limit exceeded")]).
  { assert (H : result_of
      (validateUsers (Mock.network Mock.table) Mock.sleep Mock.URIError_message
         Mock.TypeError_message (getUsernames Page.two_names) (getToken (js ""))
         (Some (progress_callback Page.ui)) w2) = inr rs)
      by (rewrite Hrun; reflexivity).
    revert H. generalize w2. intros w0 H. vm_compute in H.
    injection H as <-. reflexivity. }
  subst rs. exists w4, pev. exact Hall.
Defined.

Lemma handleValidation_progress_throws_witness :
  exists w pev,
    Page.handleValidation Page.ui_without_button Page.two_names (js "") 0 =
      (inr tt, w,
       [Call clearResults; Call showLoading] ++ map Pipeline pev ++
       [ConsoleError Page.gone;
        Call (showError (js "An error occurred during validation: " ++
                         js "Cannot set properties of null"));
        Call hideLoading]).
Proof.
  destruct (@handleValidation_progress_throws Mock.World
              (Mock.network Mock.table) Mock.sleep Mock.URIError_message
              Mock.TypeError_message Page.ui_without_button
              (Page.field Page.two_names) (Page.field (js "")) 0 0
              Page.two_names (js "") Page.gone)
    as (w2 & w3 & w4 & pev & _ & _ & Hall).
  - intros c w0 Hc. destruct c; try reflexivity.
    exfalso. exact (Hc _ _ eq_refl).
  - intros current total w0. reflexivity.
  - reflexivity.
  - reflexivity.
  - reflexivity.
  - reflexivity.
  - exists w4, pev. exact Hall.
Defined.

Lemma handleValidation_hides_loading_witness :
  exists ev,
    trace_of (Page.handleValidation Page.ui_without_button Page.two_names
                (js "") 0) = ev ++ [Call hideLoading].
Proof.
  destruct (@handleValidation_hides_loading Mock.World
              (Mock.network Mock.table) Mock.sleep Mock.URIError_message
              Mock.TypeError_message Page.ui_without_button
              (Page.field Page.two_names) (Page.field (js "")) 0 0
              Page.two_names (js "") (fun w0 => eq_refl) (fun w0 => eq_refl)
              eq_refl eq_refl eq_refl eq_refl)
    as (ev & Hev & _).
  exists ev. exact Hev.
Defined.
